(** * Schema manager of the food-inventory web application

    A shallow embedding of the schema catalog and table migrator of
    [food_webapp_V3.py]: the label-to-identifier derivation of the
    [add_table] / [edit_table] routes, the SQLite connection the module
    talks to, and the functions [init_database], [ensure_pantry_first],
    [get_tables_config], [create_table], [update_table], [delete_table]
    and [update_table_order], the route [delete_table_route], and the item
    routes [add_item], [edit_item], [delete_item] and [inline_edit].

    Modelling conventions.
    - Python [str] values are [string]s of 8-bit characters; [str.lower],
      [str.isalnum] and [str.strip] are given on the ASCII range, which is
      where the labels of the application live.
    - The SQLite file is a finite map from relation names to relations.
      The relation [table_settings] holds the catalog rows; every other
      relation is a data table with a field list and rows.  A data row maps
      a field name to its text; a field without entry holds SQL NULL.
    - A connection follows the [sqlite3] module of the Python version the
      source needs (3.12, for the nested quotes of its f-strings): INSERT,
      UPDATE and DELETE open a transaction implicitly, CREATE / DROP / ALTER
      run inside an open transaction, or commit on their own when none is
      open, and [close] discards what was not committed.
    - Every [execute] and [commit] may be failed by the storage engine; a
      failure schedule (one boolean per call) chooses where.
    - SQLite compares identifiers without regard to case and parses the
      statement text, into which the schema functions paste the table
      identifier; here a statement takes the relation it names, and names
      are compared exactly.  The two agree for an identifier that is a bare
      name and that no other relation has in another letter case; the
      properties that depend on it say so ([bare_name], [names_itself],
      [plain_column]).
    - The columns [created_at] of the catalog and the legacy catalog layout
      without [display_order] are left out. *)

From Stdlib Require Import ZArith Ascii String.
From stdpp Require Import gmap strings list fin_maps sorting pretty.

Local Open Scope string_scope.
Local Open Scope Z_scope.

(** ** Python string primitives *)

Module Py.

Definition chars := list ascii.

Definition underscore : ascii := "_"%char.

Definition is_us (c : ascii) : bool := Ascii.eqb c underscore.

(** [c.isupper()], [c.islower()], [c.isdigit()] and below [c.isalnum()]
    and [s.lower()], on the characters of ASCII.  Python decides them by
    the Unicode tables, which class letters and digits of other scripts as
    well; the properties of the derivation are stated for texts of ASCII
    ([ascii_text]). *)
Definition is_upper (c : ascii) : bool :=
  let n := nat_of_ascii c in (65 <=? n)%nat && (n <=? 90)%nat.
Definition is_lower (c : ascii) : bool :=
  let n := nat_of_ascii c in (97 <=? n)%nat && (n <=? 122)%nat.
Definition is_digit (c : ascii) : bool :=
  let n := nat_of_ascii c in (48 <=? n)%nat && (n <=? 57)%nat.

Definition isalnum (c : ascii) : bool := is_upper c || is_lower c || is_digit c.

Definition lower_char (c : ascii) : ascii :=
  if is_upper c then ascii_of_nat (nat_of_ascii c + 32) else c.

(** [s.lower()] *)
Definition lower (s : chars) : chars := map lower_char s.

(** [s.replace(a, b)] for one-character [a] and [b]. *)
Definition replace_char (a b : ascii) (s : chars) : chars :=
  map (fun c => if Ascii.eqb c a then b else c) s.

(** [s.replace(a, '')] for a one-character [a]. *)
Definition remove_char (a : ascii) (s : chars) : chars :=
  List.filter (fun c => negb (Ascii.eqb c a)) s.

(** ['__' in s] *)
Fixpoint has_dunder (s : chars) : bool :=
  match s with
  | c1 :: ((c2 :: _) as t) => (is_us c1 && is_us c2) || has_dunder t
  | _ => false
  end.

(** [s.replace('__', '_')]: the occurrences are found from the left and do
    not overlap. *)
Fixpoint replace_dunder (s : chars) : chars :=
  match s with
  | c1 :: ((c2 :: t2) as t1) =>
      if is_us c1 && is_us c2 then underscore :: replace_dunder t2
      else c1 :: replace_dunder t1
  | _ => s
  end.

(** [while '__' in s: s = s.replace('__', '_')].  Each round shortens the
    string, so [length s] rounds are enough (see [collapse_loop_done]). *)
Fixpoint collapse_loop (fuel : nat) (s : chars) : chars :=
  match fuel with
  | O => s
  | S fuel' => if has_dunder s then collapse_loop fuel' (replace_dunder s) else s
  end.

(** Whether [s] begins with an underscore. *)
Definition starts_us (s : chars) : bool :=
  match s with
  | c :: _ => is_us c
  | [] => false
  end.

Fixpoint lstrip_us (s : chars) : chars :=
  match s with
  | c :: t => if is_us c then lstrip_us t else s
  | [] => []
  end.

(** [s.strip('_')] *)
Definition strip_us (s : chars) : chars :=
  rev (lstrip_us (rev (lstrip_us s))).

(** Python's ASCII white space: space, TAB, LF, VT, FF, CR and the
    separators 28..31. *)
Definition is_space (c : ascii) : bool :=
  let n := nat_of_ascii c in
  (n =? 32)%nat || ((9 <=? n)%nat && (n <=? 13)%nat) || ((28 <=? n)%nat && (n <=? 31)%nat).

Fixpoint lstrip_ws (s : chars) : chars :=
  match s with
  | c :: t => if is_space c then lstrip_ws t else s
  | [] => []
  end.

(** [s.strip()] *)
Definition strip (s : string) : string :=
  string_of_list_ascii
    (rev (lstrip_ws (rev (lstrip_ws (list_ascii_of_string s))))).

(** [s.split(',')]: always at least one piece. *)
Fixpoint split_go (sep : ascii) (cur : chars) (s : chars) : list string :=
  match s with
  | [] => [string_of_list_ascii (rev cur)]
  | c :: t =>
      if Ascii.eqb c sep then string_of_list_ascii (rev cur) :: split_go sep [] t
      else split_go sep (c :: cur) t
  end.

Definition split (sep : ascii) (s : string) : list string :=
  split_go sep [] (list_ascii_of_string s).

End Py.

(** ** Column-name derivation (routes [add_table] and [edit_table]) *)

(** The body of the [for display_col in display_columns] loop, the same in
    both routes. *)
Definition derive_chars (display_col : Py.chars) : Py.chars :=
  let col_name := Py.lower display_col in
  let col_name :=
    Py.replace_char "/" "_"
      (Py.remove_char "$"
        (Py.replace_char ")" "_"
          (Py.replace_char "(" "_"
            (Py.replace_char "&" "_"
              (Py.replace_char "-" "_"
                (Py.replace_char " " "_" col_name)))))) in
  let col_name := List.filter (fun c => Py.isalnum c || Py.is_us c) col_name in
  let col_name := Py.collapse_loop (length col_name) col_name in
  Py.strip_us col_name.

Definition derive_column (display_col : string) : string :=
  string_of_list_ascii (derive_chars (list_ascii_of_string display_col)).

(** [display_columns = [col.strip() for col in display_columns_str.split(',')]] *)
Definition parse_display_columns (display_columns_str : string) : list string :=
  map Py.strip (Py.split "," display_columns_str).

(** The loop filling [columns]. *)
Definition derive_columns (display_columns : list string) : list string :=
  map derive_column display_columns.

(** *** The derivation in one pass

    The loop body as one traversal per step, without the chain of
    [replace] calls and the [while] loop: the form in which the properties
    of the derived identifiers are proved. *)

Module OnePass.

(** The characters the chain of [replace] calls turns into underscores. *)
Definition is_separator (c : ascii) : bool :=
  (Ascii.eqb c " " || Ascii.eqb c "-" || Ascii.eqb c "&" || Ascii.eqb c "("
   || Ascii.eqb c ")" || Ascii.eqb c "/")%char.

Definition separators_to_underscore (s : Py.chars) : Py.chars :=
  map (fun c => if is_separator c then Py.underscore else c) s.

(** The filter of the loop body. *)
Definition keep_identifier_chars (s : Py.chars) : Py.chars :=
  List.filter (fun c => Py.isalnum c || Py.is_us c) s.

(** What the [while] loop comes to: of a run of underscores the last is
    kept. *)
Fixpoint collapse_underscores (s : Py.chars) : Py.chars :=
  match s with
  | c1 :: ((c2 :: _) as t) =>
      if Py.is_us c1 && Py.is_us c2 then collapse_underscores t
      else c1 :: collapse_underscores t
  | _ => s
  end.

(** [strip('_')] *)
Definition trim_underscores (s : Py.chars) : Py.chars :=
  rev (Py.lstrip_us (rev (Py.lstrip_us s))).

Definition normalize (label : string) : string :=
  string_of_list_ascii
    (trim_underscores
      (collapse_underscores
        (keep_identifier_chars
          (separators_to_underscore
            (Py.lower (list_ascii_of_string label)))))).

End OnePass.

(** *** The derivation as the specification words it

    Written on the characters of ASCII without the primitives above: the
    letters and digits are spelled out. *)

Module SpecWords.

Definition capitals : list ascii := list_ascii_of_string "ABCDEFGHIJKLMNOPQRSTUVWXYZ".
Definition small_letters : list ascii := list_ascii_of_string "abcdefghijklmnopqrstuvwxyz".
Definition digits : list ascii := list_ascii_of_string "0123456789".
Definition separators : list ascii := list_ascii_of_string " -&()/".

Definition among (set : list ascii) (c : ascii) : bool := existsb (Ascii.eqb c) set.

Definition is_underscore (c : ascii) : bool := Ascii.eqb c "_".

(** "lowercase the label": a capital becomes the small letter of the same
    place in the alphabet. *)
Fixpoint small_of (capitals smalls : list ascii) (c : ascii) : ascii :=
  match capitals, smalls with
  | capital :: capitals', small :: smalls' =>
      if Ascii.eqb c capital then small else small_of capitals' smalls' c
  | _, _ => c
  end.

Definition lowercase (s : list ascii) : list ascii :=
  map (small_of capitals small_letters) s.

(** "replace spaces, hyphens, ampersands, parentheses, and slashes with
    underscore" *)
Definition separators_to_underscore (s : list ascii) : list ascii :=
  map (fun c => if among separators c then "_"%char else c) s.

(** "strip characters that are not alphanumeric or underscore" *)
Definition alphanumeric (c : ascii) : bool :=
  among capitals c || among small_letters c || among digits c.

Definition keep_identifier_chars (s : list ascii) : list ascii :=
  List.filter (fun c => alphanumeric c || is_underscore c) s.

(** "collapse consecutive underscores": an underscore that follows an
    underscore is dropped. *)
Fixpoint collapse_after (after_underscore : bool) (s : list ascii) : list ascii :=
  match s with
  | [] => []
  | c :: t =>
      if is_underscore c then
        if after_underscore then collapse_after true t else c :: collapse_after true t
      else c :: collapse_after false t
  end.

Definition collapse_underscores (s : list ascii) : list ascii := collapse_after false s.

(** "trim leading/trailing underscores" *)
Fixpoint trim_leading (s : list ascii) : list ascii :=
  match s with
  | c :: t => if is_underscore c then trim_leading t else s
  | [] => []
  end.

Definition trim_trailing (s : list ascii) : list ascii :=
  foldr (fun c rest => match rest with
                       | [] => if is_underscore c then [] else [c]
                       | _ => c :: rest
                       end) [] s.

Definition trim_underscores (s : list ascii) : list ascii :=
  trim_trailing (trim_leading s).

Definition normalize (label : string) : string :=
  string_of_list_ascii
    (trim_underscores
      (collapse_underscores
        (keep_identifier_chars
          (separators_to_underscore
            (lowercase (list_ascii_of_string label)))))).

End SpecWords.

(** ** Data model *)

(** A row of [table_settings]; [columns] and [display_columns] are stored as
    JSON text of a list of strings, read back with [json.loads]. *)
Record table_setting := TableSetting {
  table_id : string;
  table_name : string;
  columns : list string;
  display_columns : list string;
  display_order : Z
}.

(** A data table: its fields in declaration order and its rows in rowid
    order, each a rowid with the text held per field. *)
Record data_table := DataTable {
  fields : list string;
  rows : list (Z * gmap string string)
}.

Inductive relation :=
  | Catalog (settings : list table_setting)
  | Data (t : data_table).

Abbreviation database := (gmap string relation).

Definition settings_name : string := "table_settings".

(** ** Exceptions *)

Inductive sql_error :=
  | NoSuchTable | TableExists | NoSuchColumn | DuplicateColumn | SyntaxError
  | EngineFailure.

Inductive exn :=
  | OperationalError (why : sql_error)   (* sqlite3.OperationalError *)
  | IntegrityError                       (* PRIMARY KEY of table_settings *)
  | OverflowError                        (* int outside SQLite's INTEGER *)
  | TypeError.                           (* subscript of None *)

Abbreviation result A := (exn + A)%type.

(** ** SQL statements of the module, as functions on the database *)

Module Sql.

Definition settings_of (db : database) : result (list table_setting) :=
  match db !! settings_name with
  | Some (Catalog rs) => inr rs
  | Some (Data _) => inl (OperationalError NoSuchColumn)
  | None => inl (OperationalError NoSuchTable)
  end.

Definition put_settings (rs : list table_setting) (db : database) : database :=
  <[settings_name := Catalog rs]> db.

(** A Python int bound to a parameter must fit SQLite's 64-bit INTEGER. *)
Definition fits_integer (z : Z) : bool :=
  (- 2 ^ 63 <=? z) && (z <? 2 ^ 63).

Fixpoint max_order (rs : list table_setting) : option Z :=
  match rs with
  | [] => None
  | r :: rs' =>
      match max_order rs' with
      | None => Some (display_order r)
      | Some m => Some (Z.max (display_order r) m)
      end
  end.

Definition find_setting (tid : string) (rs : list table_setting) : option table_setting :=
  List.find (fun r => String.eqb (table_id r) tid) rs.

(** [SELECT MAX(display_order) FROM table_settings] *)
Definition select_max_display_order (db : database) : result (option Z) :=
  match settings_of db with
  | inl e => inl e
  | inr rs => inr (max_order rs)
  end.

(** [SELECT COUNT( * ) FROM table_settings] *)
Definition select_count (db : database) : result nat :=
  match settings_of db with
  | inl e => inl e
  | inr rs => inr (length rs)
  end.

(** [SELECT display_order FROM table_settings LIMIT 1] *)
Definition select_display_order_limit (db : database) : result (option Z) :=
  match settings_of db with
  | inl e => inl e
  | inr rs => inr (display_order <$> head rs)
  end.

(** [SELECT columns FROM table_settings WHERE table_id = ?], [fetchone()] *)
Definition select_columns (tid : string) (db : database) : result (option (list string)) :=
  match settings_of db with
  | inl e => inl e
  | inr rs => inr (columns <$> find_setting tid rs)
  end.

(** [SELECT display_order FROM table_settings WHERE table_id = ?], [fetchone()] *)
Definition select_display_order (tid : string) (db : database) : result (option Z) :=
  match settings_of db with
  | inl e => inl e
  | inr rs => inr (display_order <$> find_setting tid rs)
  end.

Definition order_le (a b : table_setting) : Prop := display_order a ≤ display_order b.

Definition order_id_le (a b : table_setting) : Prop :=
  display_order a < display_order b
  ∨ (display_order a = display_order b ∧ String.le (table_id a) (table_id b)).

#[global] Instance order_le_dec : RelDecision order_le.
Proof. intros a b. unfold order_le. apply _. Defined.

#[global] Instance order_id_le_dec : RelDecision order_id_le.
Proof. intros a b. unfold order_id_le. apply _. Defined.

(** The sort of [ORDER BY display_order]: a row goes before the first row
    whose rank is not lower, so that rows of equal rank stay in the order
    of the table, which is that of their rowids. *)
Fixpoint insert_by_order (r : table_setting) (sorted : list table_setting)
    : list table_setting :=
  match sorted with
  | [] => [r]
  | r' :: rest =>
      if decide (order_le r r') then r :: sorted else r' :: insert_by_order r rest
  end.

Definition sort_by_order (rs : list table_setting) : list table_setting :=
  foldr insert_by_order [] rs.

(** [SELECT table_id, display_order FROM table_settings ORDER BY display_order];
    rows of equal rank come in rowid order. *)
Definition select_by_order (db : database) : result (list (string * Z)) :=
  match settings_of db with
  | inl e => inl e
  | inr rs => inr ((fun r => (table_id r, display_order r)) <$> sort_by_order rs)
  end.

(** [SELECT * FROM table_settings ORDER BY display_order, table_id] *)
Definition select_all_ordered (db : database) : result (list table_setting) :=
  match settings_of db with
  | inl e => inl e
  | inr rs => inr (merge_sort order_id_le rs)
  end.

(** [INSERT INTO table_settings (table_id, table_name, columns,
    display_columns, display_order) VALUES (?, ?, ?, ?, ?)] *)
Definition insert_setting (r : table_setting) (db : database) : result database :=
  if negb (fits_integer (display_order r)) then inl OverflowError else
  match settings_of db with
  | inl e => inl e
  | inr rs =>
      match find_setting (table_id r) rs with
      | Some _ => inl IntegrityError
      | None => inr (put_settings (rs ++ [r]) db)
      end
  end.

(** [UPDATE table_settings SET table_name = ?, columns = ?,
    display_columns = ? WHERE table_id = ?] *)
Definition update_setting (tid name : string) (cols dcols : list string)
    (db : database) : result database :=
  match settings_of db with
  | inl e => inl e
  | inr rs =>
      inr (put_settings
             (map (fun r => if String.eqb (table_id r) tid
                            then TableSetting (table_id r) name cols dcols (display_order r)
                            else r) rs) db)
  end.

(** [UPDATE table_settings SET display_order = ? WHERE table_id = ?] *)
Definition update_display_order (new_order : Z) (tid : string)
    (db : database) : result database :=
  if negb (fits_integer new_order) then inl OverflowError else
  match settings_of db with
  | inl e => inl e
  | inr rs =>
      inr (put_settings
             (map (fun r => if String.eqb (table_id r) tid
                            then TableSetting (table_id r) (table_name r) (columns r)
                                   (display_columns r) new_order
                            else r) rs) db)
  end.

(** [DELETE FROM table_settings WHERE table_id = ?] *)
Definition delete_setting (tid : string) (db : database) : result database :=
  match settings_of db with
  | inl e => inl e
  | inr rs =>
      inr (put_settings (List.filter (fun r => negb (String.eqb (table_id r) tid)) rs) db)
  end.

(** [CREATE TABLE IF NOT EXISTS table_settings (...)] *)
Definition create_settings_if_not_exists (db : database) : result database :=
  match db !! settings_name with
  | Some _ => inr db
  | None => inr (put_settings [] db)
  end.

(** [CREATE TABLE name ([c1] TEXT, ...)], with or without IF NOT EXISTS.
    An empty column list does not parse; a repeated column is refused.
    [name] is the relation the statement names: the identifier pasted into
    its text, when that is a bare name ([bare_name]) that no relation has
    in another letter case ([names_itself]), and the columns are those
    between the brackets when they hold no closing bracket and differ by
    more than letter case ([plain_column]). *)
Definition create_table (if_not_exists : bool) (name : string) (cols : list string)
    (db : database) : result database :=
  if bool_decide (cols = []) then inl (OperationalError SyntaxError) else
  match db !! name with
  | Some _ => if if_not_exists then inr db else inl (OperationalError TableExists)
  | None =>
      if bool_decide (NoDup cols) then inr (<[name := Data (DataTable cols [])]> db)
      else inl (OperationalError DuplicateColumn)
  end.

(** [DROP TABLE name], with or without IF EXISTS; [name] is the relation
    the statement names, as for [create_table]. *)
Definition drop_table (if_exists : bool) (name : string) (db : database) : result database :=
  match db !! name with
  | Some _ => inr (delete name db)
  | None => if if_exists then inr db else inl (OperationalError NoSuchTable)
  end.

(** [ALTER TABLE old RENAME TO new] *)
Definition rename_table (old new : string) (db : database) : result database :=
  match db !! old with
  | None => inl (OperationalError NoSuchTable)
  | Some r =>
      match db !! new with
      | Some _ => inl (OperationalError TableExists)
      | None => inr (<[new := r]> (delete old db))
      end
  end.

(** The rowid given to the next inserted row. *)
Definition next_rowid (rs : list (Z * gmap string string)) : Z :=
  1 + foldr (fun r m => Z.max r.1 m) 0 rs.

Fixpoint append_rows (rs : list (Z * gmap string string))
    (new : list (gmap string string)) : list (Z * gmap string string) :=
  match new with
  | [] => rs
  | r :: new' => append_rows (rs ++ [(next_rowid rs, r)]) new'
  end.

(** The values of the selected columns of one row. *)
Definition project (cols : list string) (r : gmap string string) : gmap string string :=
  filter (fun kv => kv.1 ∈ cols) r.

(** [INSERT INTO dst ([c1], ...) SELECT [c1], ... FROM src] *)
Definition insert_select (dst : string) (cols : list string) (src : string)
    (db : database) : result database :=
  match db !! dst, db !! src with
  | Some (Data td), Some (Data ts) =>
      if bool_decide (cols ⊆ fields td ∧ cols ⊆ fields ts) then
        inr (<[dst := Data (DataTable (fields td)
                              (append_rows (rows td) (project cols <$> (snd <$> rows ts))))]> db)
      else inl (OperationalError NoSuchColumn)
  | Some (Catalog _), _ | _, Some (Catalog _) => inl (OperationalError NoSuchColumn)
  | _, _ => inl (OperationalError NoSuchTable)
  end.

End Sql.

(** ** The connection *)

(** What is on disk, what the open connection sees, whether a transaction
    is open, and the failures the engine still has in store. *)
Record connection := Connection {
  disk : database;
  view : database;
  in_transaction : bool;
  schedule : list bool
}.

(** The database file between two calls, with the engine's failure
    schedule. *)
Record storage := Storage {
  file : database;
  failures : list bool
}.

Definition M (A : Type) : Type := connection → result A * connection.

#[global] Instance M_ret : MRet M := λ A a c, (inr a, c).

#[global] Instance M_bind : MBind M := λ A B k m c,
  match m c with
  | (inr a, c') => k a c'
  | (inl e, c') => (inl e, c')
  end.

Definition raise {A} (e : exn) : M A := λ c, (inl e, c).

(** The implicit BEGIN of the [sqlite3] module. *)
Definition begin (c : connection) : connection :=
  Connection (disk c) (view c) true (schedule c).

(** Consult the failure schedule for the next engine call. *)
Definition next_failure (c : connection) : bool * connection :=
  match schedule c with
  | [] => (false, c)
  | b :: s => (b, Connection (disk c) (view c) (in_transaction c) s)
  end.

(** A statement that went through: inside a transaction it changes the
    view only, outside it is committed on its own. *)
Definition store (db : database) (c : connection) : connection :=
  Connection (if in_transaction c then disk c else db) db (in_transaction c) (schedule c).

(** [cur.execute(sql)] for INSERT, UPDATE and DELETE ([dml = true]) and for
    the other statements. *)
Definition execute (dml : bool) (stmt : database → result database) : M () := λ c,
  let c := if dml then begin c else c in
  match next_failure c with
  | (true, c) => (inl (OperationalError EngineFailure), c)
  | (false, c) =>
      match stmt (view c) with
      | inl e => (inl e, c)
      | inr db => (inr (), store db c)
      end
  end.

(** [cur.execute(sql)] for a SELECT, with the value fetched from the cursor. *)
Definition query {A} (q : database → result A) : M A := λ c,
  match next_failure c with
  | (true, c) => (inl (OperationalError EngineFailure), c)
  | (false, c) =>
      match q (view c) with
      | inl e => (inl e, c)
      | inr a => (inr a, c)
      end
  end.

(** [conn.commit()] *)
Definition commit : M () := λ c,
  match next_failure c with
  | (true, c) => (inl (OperationalError EngineFailure), c)
  | (false, c) => (inr (), Connection (view c) (view c) false (schedule c))
  end.

(** [conn.rollback()] *)
Definition rollback (c : connection) : connection :=
  Connection (disk c) (disk c) false (schedule c).

(** [try: body  except Exception as e: conn.rollback(); raise e] *)
Definition try_rollback {A} (body : M A) : M A := λ c,
  match body c with
  | (inl e, c') => (inl e, rollback c')
  | ok => ok
  end.

(** [conn = get_db_connection() ... conn.close()]: what was not committed
    is lost when the connection closes. *)
Definition with_connection {A} (body : M A) (s : storage) : result A * storage :=
  let '(r, c) := body (Connection (file s) (file s) false (failures s)) in
  (r, Storage (disk c) (schedule c)).

(** [for x in xs: body(x)] *)
Fixpoint for_each {A} (xs : list A) (body : A → M ()) : M () :=
  match xs with
  | [] => mret ()
  | x :: xs' => body x ;; for_each xs' body
  end.

(** [fetched[...]] on the result of [fetchone()]. *)
Definition subscript {A} (fetched : option A) : M A :=
  match fetched with
  | Some a => mret a
  | None => raise TypeError
  end.

(** [x or d] on an optional integer: [None] and [0] are falsy. *)
Definition py_or (x : option Z) (d : Z) : Z :=
  match x with
  | Some v => if v =? 0 then d else v
  | None => d
  end.

(** ** The schema manager *)

Definition create_table (table_id table_name : string)
    (columns display_columns : list string) : storage → result bool * storage :=
  with_connection (try_rollback (
    max_order ← query Sql.select_max_display_order;
    let next_order := py_or max_order (-1) + 1 in
    execute true (Sql.insert_setting
      (TableSetting table_id table_name columns display_columns next_order));;
    execute false (Sql.create_table false table_id columns);;
    commit;;
    mret true)).

Definition update_table (table_id table_name : string)
    (columns display_columns : list string) : storage → result bool * storage :=
  with_connection (try_rollback (
    fetched ← query (Sql.select_columns table_id);
    old_columns ← subscript fetched;
    execute true (Sql.update_setting table_id table_name columns display_columns);;
    (if bool_decide (list_to_set columns ≠@{gset string} list_to_set old_columns) then
       let temp_table := table_id +:+ "_temp" in
       execute false (Sql.create_table false temp_table columns);;
       let common_columns := filter (λ col, col ∈ old_columns) columns in
       (if bool_decide (common_columns ≠ []) then
          execute true (Sql.insert_select temp_table common_columns table_id)
        else mret ());;
       execute false (Sql.drop_table false table_id);;
       execute false (Sql.rename_table temp_table table_id)
     else mret ());;
    commit;;
    mret true)).

Definition delete_table (table_id : string) : storage → result bool * storage :=
  with_connection (try_rollback (
    execute true (Sql.delete_setting table_id);;
    execute false (Sql.drop_table true table_id);;
    commit;;
    mret true)).

Definition update_table_order (table_orders : list (string * Z))
    : storage → result bool * storage :=
  with_connection (try_rollback (
    for_each table_orders (λ '(table_id, new_order),
      execute true (Sql.update_display_order new_order table_id));;
    commit;;
    mret true)).

(** The loop of [ensure_pantry_first] over the fetched [tables]. *)
Fixpoint renumber_others (new_order : Z) (tables : list (string * Z)) : M () :=
  match tables with
  | [] => mret ()
  | (tid, _) :: tables' =>
      if bool_decide (tid ≠ "pantry") then
        execute true (Sql.update_display_order new_order tid);;
        renumber_others (new_order + 1) tables'
      else renumber_others new_order tables'
  end.

(** [except Exception as e: print(...)]: the exception ends there. *)
Definition try_print (body : M ()) : M () := λ c,
  match body c with
  | (inl _, c') => (inr (), c')
  | ok => ok
  end.

Definition ensure_pantry_first : storage → result () * storage :=
  with_connection (try_print (
    pantry_result ← query (Sql.select_display_order "pantry");
    match pantry_result with
    | Some pantry_order =>
        if bool_decide (pantry_order ≠ 0) then
          tables ← query Sql.select_by_order;
          execute true (Sql.update_display_order 0 "pantry");;
          renumber_others 1 tables;;
          commit
        else mret ()
    | None => mret ()
    end)).

Definition default_tables : list table_setting :=
  [ TableSetting "pantry" "Pantry"
      ["item"; "dateofpurchase"; "amount"]
      ["Item"; "Date of Purchase"; "Amount"] 0;
    TableSetting "basement_freezer" "Basement Freezer"
      ["item"; "dateofpurchase"; "weight"; "amount"]
      ["Item"; "Date of Purchase"; "Weight"; "Amount"] 1 ].

(** [init_database], for a catalog that has the column [display_order]:
    the [except sqlite3.OperationalError] branch that adds the column to a
    catalog of an earlier layout is left out, and a failure of the probing
    SELECT ends the call.  No [try] surrounds the body, so an exception
    leaves the function before [ensure_pantry_first] is called. *)
Definition init_database (s : storage) : result () * storage :=
  match
    with_connection (
      execute false Sql.create_settings_if_not_exists;;
      query Sql.select_display_order_limit;;
      count ← query Sql.select_count;
      (if bool_decide (count = 0%nat) then
         for_each default_tables (λ d,
           execute true (Sql.insert_setting d);;
           execute false (Sql.create_table true (table_id d) (columns d)))
       else mret ());;
      commit) s
  with
  | (inl e, s') => (inl e, s')
  | (inr _, s') => ensure_pantry_first s'
  end.

(** [get_tables_config]: the dictionary, in insertion order. *)
Definition get_tables_config : storage → result (list table_setting) * storage :=
  with_connection (query Sql.select_all_ordered).

(** The identifiers and ranks of [get_tables_config()], in its order. *)
Definition listing (s : storage) : result (list (string * Z)) :=
  match (get_tables_config s).1 with
  | inl e => inl e
  | inr rs => inr ((λ r, (table_id r, display_order r)) <$> rs)
  end.

(** ** The routes [/add_table] and [/edit_table] *)

(** The message flashed before the redirect. *)
Inductive flash :=
  | AllFieldsRequired
  | ColumnCountMismatch
  | TableCreated (name : string)
  | ErrorCreating (e : exn)
  | TableUpdated (name : string)
  | ErrorUpdating (e : exn).

Definition add_table (form_table_id form_table_name display_columns_str : string)
    (s : storage) : flash * storage :=
  let table_id := Py.strip form_table_id in
  let table_name := Py.strip form_table_name in
  if bool_decide (table_id = "" ∨ table_name = "" ∨ display_columns_str = "")
  then (AllFieldsRequired, s) else
  let display_columns := parse_display_columns display_columns_str in
  let columns := derive_columns display_columns in
  if bool_decide (length columns ≠ length display_columns)
  then (ColumnCountMismatch, s) else
  match create_table table_id table_name columns display_columns s with
  | (inr _, s') => (TableCreated table_name, s')
  | (inl e, s') => (ErrorCreating e, s')
  end.


(** ** Sample databases *)

Module Sample.

Definition milk : gmap string string := {[ "item" := "milk"; "amount" := "1" ]}.

(** A catalog with [pantry] and [fridge], the fridge holding one row. *)
Definition fridge_db : database :=
  {[ settings_name := Catalog
       [ TableSetting "pantry" "Pantry" ["item"; "dateofpurchase"; "amount"]
           ["Item"; "Date of Purchase"; "Amount"] 0;
         TableSetting "fridge" "Fridge" ["item"; "amount"] ["Item"; "Amount"] 1 ];
     "pantry" := Data (DataTable ["item"; "dateofpurchase"; "amount"] []);
     "fridge" := Data (DataTable ["item"; "amount"] [(1, milk)]) ]}.

Definition dated_milk : gmap string string :=
  {[ "item" := "milk"; "amount" := "1"; "expiration_date" := "2025-01-31" ]}.

(** The same, the fridge having a third column. *)
Definition dated_fridge_db : database :=
  {[ settings_name := Catalog
       [ TableSetting "pantry" "Pantry" ["item"; "dateofpurchase"; "amount"]
           ["Item"; "Date of Purchase"; "Amount"] 0;
         TableSetting "fridge" "Fridge" ["item"; "amount"; "expiration_date"]
           ["Item"; "Amount"; "Expiration Date"] 1 ];
     "pantry" := Data (DataTable ["item"; "dateofpurchase"; "amount"] []);
     "fridge" := Data (DataTable ["item"; "amount"; "expiration_date"] [(1, dated_milk)]) ]}.

(** The file after the first startup, before any user table. *)
Definition fresh_db : database :=
  {[ settings_name := Catalog default_tables;
     "pantry" := Data (DataTable ["item"; "dateofpurchase"; "amount"] []);
     "basement_freezer" :=
       Data (DataTable ["item"; "dateofpurchase"; "weight"; "amount"] []) ]}.

End Sample.

(** ** Vocabulary of the properties *)

(** [triple P m Q E]: from a connection in [P], [m] ends in [Q] when it
    returns and in [E] when it raises. *)
Definition triple {A} (P : connection → Prop) (m : M A)
    (Q : A → connection → Prop) (E : connection → Prop) : Prop :=
  ∀ c, P c → match m c with
             | (inr a, c') => Q a c'
             | (inl _, c') => E c'
             end.

(** The disk still holds [db0]. *)
Definition on_disk (db0 : database) (c : connection) : Prop := disk c = db0.

(** The disk holds [db0], and so does the view unless a transaction is open. *)
Definition unchanged (db0 : database) (c : connection) : Prop :=
  disk c = db0 ∧ (in_transaction c = false → view c = db0).

(** The disk holds [db0] and a transaction is open. *)
Definition in_txn (db0 : database) (c : connection) : Prop :=
  disk c = db0 ∧ in_transaction c = true.

(** The rows the migration leaves: the rows of the old table narrowed to
    the common columns, or none when no column is common. *)
Definition migrated_rows (old cols : list string) (t : data_table)
    : list (Z * gmap string string) :=
  Sql.append_rows []
    (if bool_decide (filter (λ col, col ∈ old) cols ≠ [])
     then Sql.project (filter (λ col, col ∈ old) cols) <$> (snd <$> rows t)
     else []).

(** The catalog rows after [UPDATE table_settings SET table_name, columns,
    display_columns WHERE table_id = tid]. *)
Definition updated_settings (tid name : string) (cols dcols : list string)
    (rs : list table_setting) : list table_setting :=
  map (fun r => if String.eqb (table_id r) tid
                then TableSetting (table_id r) name cols dcols (display_order r)
                else r) rs.


(** The rank an identifier ends with when the assignments of a reorder
    request are applied in their order to a row of rank [rank]. *)
Definition final_rank (table_orders : list (string * Z)) (tid : string) (rank : Z) : Z :=
  foldl (λ acc p, if decide (p.1 = tid) then p.2 else acc) rank table_orders.

(** The catalog rows after these assignments. *)
Definition reordered (table_orders : list (string * Z)) (rs : list table_setting)
    : list table_setting :=
  map (fun r => TableSetting (table_id r) (table_name r) (columns r) (display_columns r)
                  (final_rank table_orders (table_id r) (display_order r))) rs.

(** The primary key of [table_settings]: no two catalog rows share an
    identifier. *)
Definition unique_ids (db : database) : Prop :=
  ∀ rs, db !! settings_name = Some (Catalog rs) → NoDup (table_id <$> rs).

(** The ranks the loop of [ensure_pantry_first] writes, in its order. *)
Fixpoint renumbering (new_order : Z) (tables : list (string * Z)) : list (string * Z) :=
  match tables with
  | [] => []
  | (tid, _) :: tables' =>
      if bool_decide (tid ≠ "pantry")
      then (tid, new_order) :: renumbering (new_order + 1) tables'
      else renumbering new_order tables'
  end.

(** Two catalog rows that differ in their rank at most. *)
Definition same_but_rank (r r' : table_setting) : Prop :=
  table_id r' = table_id r ∧ table_name r' = table_name r
  ∧ columns r' = columns r ∧ display_columns r' = display_columns r.

(** ** The route [/delete_table/<table_id>] *)

Inductive delete_flash :=
  | TableDeleted (name : string)
  | TableNotFound
  | ErrorDeleting (e : exn).

(** [tables[table_id]] on the dictionary [get_tables_config] builds: of two
    rows with one identifier the later one is kept. *)
Definition lookup_table (table_id : string) (tables : list table_setting)
    : option table_setting :=
  Sql.find_setting table_id (reverse tables).

Definition delete_table_route (table_id : string) (s : storage) : delete_flash * storage :=
  match get_tables_config s with
  | (inl e, s1) => (ErrorDeleting e, s1)
  | (inr tables, s1) =>
      match lookup_table table_id tables with
      | Some table_config =>
          match delete_table table_id s1 with
          | (inr _, s2) => (TableDeleted (table_name table_config), s2)
          | (inl e, s2) => (ErrorDeleting e, s2)
          end
      | None => (TableNotFound, s1)
      end
  end.

(** A character of a storage identifier: lower-case letter, digit or
    underscore. *)
Definition identifier_char (c : ascii) : bool :=
  Py.is_lower c || Py.is_digit c || Py.is_us c.

(** Whether [s] ends with an underscore. *)
Definition ends_us (s : Py.chars) : bool := Py.starts_us (rev s).

(** The number of commas of a form field. *)
Definition commas (s : string) : nat :=
  length (filter (λ c, c = ","%char) (list_ascii_of_string s)).

(** A text of the ASCII range, where the string primitives above are
    those of Python. *)
Definition ascii_text (s : string) : bool :=
  forallb (λ c, (nat_of_ascii c <? 128)%nat) (list_ascii_of_string s).

(** ** Names in the text of a statement

    The schema functions paste a table identifier into the text of their
    statements (CREATE TABLE, DROP TABLE, ALTER TABLE, INSERT ... SELECT)
    and a column identifier between square brackets.  The statements of
    [Sql] take the identifier as the name of the relation; that is what
    SQLite makes of the text when the identifier is a bare name and no
    other relation of the file has the same name in another letter case.
    The properties that depend on it state these conditions. *)

(** The keywords of SQLite (3.40), none of which is taken here as a name. *)
Definition sqlite_keywords : list string :=
  ["abort"; "action"; "add"; "after"; "all"; "alter"; "always"; "analyze"; "and"; "as";
   "asc"; "attach"; "autoincrement"; "before"; "begin"; "between"; "by"; "cascade";
   "case"; "cast"; "check"; "collate"; "column"; "commit"; "conflict"; "constraint";
   "create"; "cross"; "current"; "current_date"; "current_time"; "current_timestamp";
   "database"; "default"; "deferrable"; "deferred"; "delete"; "desc"; "detach";
   "distinct"; "do"; "drop"; "each"; "else"; "end"; "escape"; "except"; "exclude";
   "exclusive"; "exists"; "explain"; "fail"; "filter"; "first"; "following"; "for";
   "foreign"; "from"; "full"; "generated"; "glob"; "group"; "groups"; "having"; "if";
   "ignore"; "immediate"; "in"; "index"; "indexed"; "initially"; "inner"; "insert";
   "instead"; "intersect"; "into"; "is"; "isnull"; "join"; "key"; "last"; "left";
   "like"; "limit"; "match"; "materialized"; "natural"; "no"; "not"; "nothing";
   "notnull"; "null"; "nulls"; "of"; "offset"; "on"; "or"; "order"; "others"; "outer";
   "over"; "partition"; "plan"; "pragma"; "preceding"; "primary"; "query"; "raise";
   "range"; "recursive"; "references"; "regexp"; "reindex"; "release"; "rename";
   "replace"; "restrict"; "returning"; "right"; "rollback"; "row"; "rows"; "savepoint";
   "select"; "set"; "table"; "temp"; "temporary"; "then"; "ties"; "to"; "transaction";
   "trigger"; "unbounded"; "union"; "unique"; "update"; "using"; "vacuum"; "values";
   "view"; "virtual"; "when"; "where"; "window"; "with"; "without"].

(** SQLite compares names without regard to the case of ASCII letters. *)
Definition fold_case (name : string) : string :=
  string_of_list_ascii (Py.lower (list_ascii_of_string name)).

(** A bare name: a letter or underscore followed by letters, digits and
    underscores, that is no keyword and not reserved by the prefix
    [sqlite_]. *)
Definition bare_name (name : string) : bool :=
  let s := list_ascii_of_string name in
  match s with
  | [] => false
  | c :: _ => Py.is_upper c || Py.is_lower c || Py.is_us c
  end
  && forallb (λ c, Py.isalnum c || Py.is_us c) s
  && negb (String.prefix "sqlite_" (fold_case name))
  && negb (existsb (String.eqb (fold_case name)) sqlite_keywords).

(** A bare name that no other relation of the file has in another case:
    in the text of a statement it names the relation stored under it, or
    none. *)
Definition names_itself (name : string) (db : database) : bool :=
  bare_name name
  && bool_decide (map_Forall (λ other _, fold_case other = fold_case name → other = name) db).

(** A column identifier that, between square brackets, names itself, and
    that differs from another such identifier by more than letter case: it
    has no closing bracket and no capital letter. *)
Definition plain_column (col : string) : bool :=
  forallb (λ c, negb (Ascii.eqb c "]") && negb (Py.is_upper c)) (list_ascii_of_string col).

(** The catalog and the data tables agree: every catalog row has a data
    table under its identifier whose field set is the column set of the
    row. *)
Definition consistent (db : database) : Prop :=
  ∀ rs r, db !! settings_name = Some (Catalog rs) → r ∈ rs →
    ∃ t, db !! table_id r = Some (Data t)
         ∧ list_to_set (fields t) =@{gset string} list_to_set (columns r).

(** ** Rows of the data tables *)

(** The statements of the item routes.  They address the table of a
    catalog row; addressed to [table_settings] itself, whose rows are not
    modelled as data rows, they are refused.  Row identifiers are taken to
    stay below the largest INTEGER, so that a new row gets the next one. *)
Module Rows.

(** The row an INSERT builds from its column list and values: of a column
    named twice the first value is stored. *)
Definition new_row (cols : list string) (vals : list string) : gmap string string :=
  list_to_map (zip cols vals).

(** [INSERT INTO tab ([c1], ...) VALUES (?, ...)] *)
Definition insert_values (tab : string) (cols : list string) (vals : list string)
    (db : database) : result database :=
  if bool_decide (cols = []) then inl (OperationalError SyntaxError) else
  match db !! tab with
  | Some (Data t) =>
      if bool_decide (cols ⊆ fields t) then
        inr (<[tab := Data (DataTable (fields t)
                              (rows t ++ [(Sql.next_rowid (rows t), new_row cols vals)]))]> db)
      else inl (OperationalError NoSuchColumn)
  | Some (Catalog _) => inl (OperationalError NoSuchColumn)
  | None => inl (OperationalError NoSuchTable)
  end.

(** The assignments of an UPDATE, applied in their order: [None] stores
    NULL, and of a column assigned twice the last value is stored. *)
Definition assign (assignments : list (string * option string))
    (r : gmap string string) : gmap string string :=
  foldl (λ r a, match a.2 with
                | Some v => <[a.1 := v]> r
                | None => delete a.1 r
                end) r assignments.

(** The value bound to [WHERE rowid=?], as the two operands SQLite may
    make of it: the integer it denotes, if any, and its text. *)
Record rowid_key := RowidKey { as_integer : option Z; as_text : string }.

(** A Python [int], and a [str] given SQLite's conversion [numeric] of a
    text compared with an INTEGER. *)
Definition int_key (n : Z) : rowid_key := RowidKey (Some n) (pretty n).
Definition text_key (numeric : string → option Z) (text : string) : rowid_key :=
  RowidKey (numeric text) text.

(** The rows [WHERE rowid=?] concerns.  In a table that has a field called
    [rowid] the name means that field, a TEXT column, and the bound value
    is compared with it as text; elsewhere it means the row identifier. *)
Definition concerns (flds : list string) (key : rowid_key)
    (p : Z * gmap string string) : bool :=
  if bool_decide ("rowid" ∈ flds) then bool_decide (p.2 !! "rowid" = Some (as_text key))
  else bool_decide (Some p.1 = as_integer key).

(** Binding a Python [int] to a statement that compiled: refused when the
    value is outside INTEGER. *)
Definition bind_int (rowid : Z) (stmt : rowid_key → database → result database)
    (db : database) : result database :=
  match stmt (int_key rowid) db with
  | inl e => inl e
  | inr db' => if Sql.fits_integer rowid then inr db' else inl OverflowError
  end.

(** [UPDATE tab SET [c1]=?, ... WHERE rowid=?] *)
Definition update_row (tab : string) (assignments : list (string * option string))
    (rowid : rowid_key) (db : database) : result database :=
  if bool_decide (assignments = []) then inl (OperationalError SyntaxError) else
  match db !! tab with
  | Some (Data t) =>
      if bool_decide (assignments.*1 ⊆ fields t) then
        inr (<[tab := Data (DataTable (fields t)
                 ((λ p, if concerns (fields t) rowid p
                        then (p.1, assign assignments p.2) else p) <$> rows t))]> db)
      else inl (OperationalError NoSuchColumn)
  | Some (Catalog _) => inl (OperationalError NoSuchColumn)
  | None => inl (OperationalError NoSuchTable)
  end.

(** [DELETE FROM tab WHERE rowid=?] *)
Definition delete_row (tab : string) (rowid : rowid_key) (db : database)
    : result database :=
  match db !! tab with
  | Some (Data t) =>
      inr (<[tab := Data (DataTable (fields t)
                            (filter (λ p, concerns (fields t) rowid p = false) (rows t)))]> db)
  | Some (Catalog _) => inl (OperationalError NoSuchColumn)
  | None => inl (OperationalError NoSuchTable)
  end.

End Rows.

(** ** The item routes *)

(** What leaves a route that has no [try]: an exception of the database
    layer, or the [KeyError] of [tables[tab]]. *)
Inductive route_exn :=
  | Sqlite (e : exn)
  | KeyError.

(** [if tab not in tables: tab = list(tables.keys())[0] if tables else 'pantry'] *)
Definition resolve_tab (tab : string) (tables : list table_setting) : string :=
  if bool_decide (tab ∈ table_id <$> tables) then tab
  else match tables with
       | r :: _ => table_id r
       | [] => "pantry"
       end.

(** [request.form.get(col, '')] *)
Definition form_get (form : gmap string string) (col : string) : string :=
  default "" (form !! col).

(** [add_item], request method POST; [tab] is the value of
    [request.args.get('tab') or request.form.get('tab', 'pantry')]. *)
Definition add_item (tab : string) (form : gmap string string) (s : storage)
    : (route_exn + ()) * storage :=
  match get_tables_config s with
  | (inl e, s1) => (inl (Sqlite e), s1)
  | (inr tables, s1) =>
      let tab := resolve_tab tab tables in
      match lookup_table tab tables with
      | None => (inl KeyError, s1)
      | Some table_config =>
          let cols := columns table_config in
          let values := form_get form <$> cols in
          match with_connection
                  (execute true (Rows.insert_values tab cols values);; commit) s1 with
          | (inl e, s2) => (inl (Sqlite e), s2)
          | (inr _, s2) => (inr (), s2)
          end
      end
  end.

(** [edit_item], request method POST; [tab] is the value of
    [request.args.get('tab', 'pantry')], [rowid] the integer of the URL. *)
Definition edit_item (rowid : Z) (tab : string) (form : gmap string string) (s : storage)
    : (route_exn + ()) * storage :=
  match get_tables_config s with
  | (inl e, s1) => (inl (Sqlite e), s1)
  | (inr tables, s1) =>
      let tab := resolve_tab tab tables in
      match lookup_table tab tables with
      | None => (inl KeyError, s1)
      | Some table_config =>
          let cols := columns table_config in
          let values := form_get form <$> cols in
          match with_connection
                  (execute true
                     (Rows.bind_int rowid (Rows.update_row tab (zip cols (Some <$> values))));;
                   commit) s1 with
          | (inl e, s2) => (inl (Sqlite e), s2)
          | (inr _, s2) => (inr (), s2)
          end
      end
  end.

(** [delete_item]; [tab] is the value of [request.args.get('tab', 'pantry')]. *)
Definition delete_item (rowid : Z) (tab : string) (s : storage)
    : (route_exn + ()) * storage :=
  match get_tables_config s with
  | (inl e, s1) => (inl (Sqlite e), s1)
  | (inr tables, s1) =>
      let tab := resolve_tab tab tables in
      match with_connection
              (execute true (Rows.bind_int rowid (Rows.delete_row tab));; commit) s1 with
      | (inl e, s2) => (inl (Sqlite e), s2)
      | (inr _, s2) => (inr (), s2)
      end
  end.

(** The JSON answers of [inline_edit]. *)
Inductive inline_reply :=
  | InlineSuccess
  | MissingParameters
  | InvalidTable
  | InvalidColumn
  | InlineError (e : exn).

(** [inline_edit].  A form field that is absent is given as the empty
    string ([not x] holds of both), an absent [value] as [None].  The row
    identifier arrives as text; [numeric] stands for SQLite's conversion of
    a text compared with an INTEGER: the integer the text denotes, if
    any. *)
Definition inline_edit (numeric : string → option Z) (tab rowid column : string)
    (value : option string) (s : storage) : inline_reply * storage :=
  if bool_decide (tab = "" ∨ rowid = "" ∨ column = "") then (MissingParameters, s) else
  match get_tables_config s with
  | (inl e, s1) => (InlineError e, s1)
  | (inr tables, s1) =>
      match lookup_table tab tables with
      | None => (InvalidTable, s1)
      | Some table_config =>
          if bool_decide (column ∉ columns table_config) then (InvalidColumn, s1) else
          match with_connection
                  (execute true
                     (Rows.update_row tab [(column, value)] (Rows.text_key numeric rowid));;
                   commit) s1 with
          | (inl e, s2) => (InlineError e, s2)
          | (inr _, s2) => (InlineSuccess, s2)
          end
      end
  end.

(** * Properties *)

(** ** The derivation of column names *)

Section Derivation.

Import Py OnePass.

Lemma is_us_eq c : is_us c = true → c = underscore.
Proof. unfold is_us. apply Ascii.eqb_eq. Qed.

(** Induction going two characters deep, as the scanners do. *)
Lemma chars_pair_ind (P : chars → Prop) :
  P [] → (∀ c, P [c]) →
  (∀ c1 c2 t, P t → P (c2 :: t) → P (c1 :: c2 :: t)) →
  ∀ s, P s.
Proof.
  intros Hnil Hone Hstep s.
  assert (H : P s ∧ ∀ c, P (c :: s)); [|tauto].
  induction s as [|c' s [IH1 IH2]]; split; auto.
Qed.

Lemma collapse_cons c s :
  collapse_underscores (c :: s) =
  if is_us c && starts_us s then collapse_underscores s
  else c :: collapse_underscores s.
Proof. destruct s as [|c2 t]; simpl; [by rewrite andb_false_r|done]. Qed.

Lemma replace_dunder_starts s : starts_us (replace_dunder s) = starts_us s.
Proof.
  destruct s as [|c1 [|c2 t]]; simpl; try done.
  destruct (is_us c1) eqn:E1; simpl; [|by rewrite E1].
  destruct (is_us c2); simpl; [done|by rewrite E1].
Qed.

Lemma replace_dunder_cons c1 c2 t :
  replace_dunder (c1 :: c2 :: t) =
  if is_us c1 && is_us c2 then underscore :: replace_dunder t
  else c1 :: replace_dunder (c2 :: t).
Proof. reflexivity. Qed.

Lemma collapse_replace_dunder s :
  collapse_underscores (replace_dunder s) = collapse_underscores s.
Proof.
  induction s as [| c | c1 c2 t IH1 IH2] using chars_pair_ind; try done.
  rewrite replace_dunder_cons.
  destruct (is_us c1 && is_us c2) eqn:E.
  - apply andb_prop in E as [E1 E2].
    rewrite (collapse_cons c1), E1. cbn [starts_us andb]. rewrite E2.
    rewrite (collapse_cons c2), E2. cbn [andb].
    rewrite collapse_cons, replace_dunder_starts, IH1.
    by rewrite <- (is_us_eq _ E2), E2.
  - rewrite (collapse_cons c1 (replace_dunder _)), replace_dunder_starts, IH2.
    rewrite (collapse_cons c1). by cbn [starts_us].
Qed.

Lemma collapse_no_dunder s :
  has_dunder s = false → collapse_underscores s = s.
Proof.
  induction s as [| c | c1 c2 t IH1 IH2] using chars_pair_ind; try done.
  cbn [has_dunder collapse_underscores]. intros [E H]%orb_false_elim.
  rewrite E. f_equal. by apply IH2.
Qed.

Lemma replace_dunder_length s :
  (length (replace_dunder s) ≤ length s)%nat ∧
  (has_dunder s = true → length (replace_dunder s) < length s)%nat.
Proof.
  induction s as [| c | c1 c2 t IH1 IH2] using chars_pair_ind;
    [by split | by split |].
  rewrite replace_dunder_cons. cbn [has_dunder].
  destruct (is_us c1 && is_us c2); cbn [orb length] in *; [lia|].
  split; [lia|]. intros H. destruct IH2 as [_ IH2]. specialize (IH2 H). lia.
Qed.

(** The [while] loop of the routes ends within [length s] rounds: on exit
    no double underscore is left. *)
Lemma collapse_loop_done fuel s :
  (length s ≤ fuel)%nat → has_dunder (collapse_loop fuel s) = false.
Proof.
  revert s. induction fuel as [|fuel IH]; intros s Hlen.
  - by destruct s; [|simpl in Hlen; lia].
  - simpl. destruct (has_dunder s) eqn:E; [|done].
    apply IH. pose proof (replace_dunder_length s) as [_ H].
    specialize (H E). lia.
Qed.

Lemma collapse_loop_collapse fuel s :
  (length s ≤ fuel)%nat → collapse_loop fuel s = collapse_underscores s.
Proof.
  revert s. induction fuel as [|fuel IH]; intros s Hlen.
  - by destruct s; [|simpl in Hlen; lia].
  - simpl. destruct (has_dunder s) eqn:E.
    + rewrite IH, collapse_replace_dunder; [done|].
      pose proof (replace_dunder_length s) as [_ H]. specialize (H E). lia.
    + by rewrite collapse_no_dunder.
Qed.

(** The chain of [replace] calls, followed by the filter, keeps what the
    replacement of the six separators followed by the filter keeps: the
    dollar sign the chain removes is no identifier character. *)
Lemma replace_chain_keep s :
  List.filter (λ c, isalnum c || is_us c)
    (replace_char "/" "_" (remove_char "$" (replace_char ")" "_"
      (replace_char "(" "_" (replace_char "&" "_" (replace_char "-" "_"
        (replace_char " " "_" s))))))) =
  keep_identifier_chars (separators_to_underscore s).
Proof.
  unfold keep_identifier_chars, separators_to_underscore, replace_char, remove_char.
  induction s as [|c s IH]; [done|].
  destruct c as [[] [] [] [] [] [] [] []]; cbn; rewrite ?IH; reflexivity.
Qed.

Lemma derive_chars_normalize s :
  derive_chars s =
  trim_underscores (collapse_underscores (keep_identifier_chars
    (separators_to_underscore (lower s)))).
Proof.
  unfold derive_chars. rewrite replace_chain_keep.
  by rewrite collapse_loop_collapse.
Qed.

End Derivation.

(** *** The steps of the specification and the one-pass form *)

Section Words.

Import Py.










End Words.



(** ** Reasoning about connections *)

Section Triples.

Context {A : Type}.

Lemma triple_ret (P : connection → Prop) (a : A) Q E :
  (∀ c, P c → Q a c) → triple P (mret a) Q E.
Proof. intros H c Hc. by apply H. Qed.

Lemma triple_raise (P : connection → Prop) e Q E :
  (∀ c, P c → E c) → triple P (raise e : M A) Q E.
Proof. intros H c Hc. by apply H. Qed.

Lemma triple_weaken (P P' : connection → Prop) (m : M A) Q E :
  (∀ c, P' c → P c) → triple P m Q E → triple P' m Q E.
Proof. intros H Hm c Hc. apply Hm. by apply H. Qed.

End Triples.

Lemma triple_bind {A B} P (m : M A) Q (k : A → M B) R E :
  triple P m Q E → (∀ a, triple (Q a) (k a) R E) → triple P (m ≫= k) R E.
Proof.
  intros Hm Hk c Hc. specialize (Hm c Hc).
  unfold mbind, M_bind. destruct (m c) as [[e|a] c']; [done|].
  by apply Hk.
Qed.

Lemma in_txn_unchanged db0 c : in_txn db0 c → unchanged db0 c.
Proof. intros [? Ht]. split; [done|]. by rewrite Ht. Qed.

Lemma next_failure_spec c :
  ∃ b s, next_failure c = (b, Connection (disk c) (view c) (in_transaction c) s).
Proof.
  unfold next_failure. destruct c as [d v t [|b s]]; simpl; eauto.
Qed.

Lemma triple_query {A} db0 (q : database → result A) :
  triple (unchanged db0) (query q) (λ _, unchanged db0) (on_disk db0).
Proof.
  intros c [Hd Hv]. unfold query.
  destruct (next_failure_spec c) as (b & s & ->).
  destruct b; [done|]. simpl. by destruct (q (view c)).
Qed.

Lemma triple_query_txn {A} db0 (q : database → result A) :
  triple (in_txn db0) (query q) (λ _, in_txn db0) (on_disk db0).
Proof.
  intros c [Hd Hv]. unfold query.
  destruct (next_failure_spec c) as (b & s & ->).
  destruct b; [done|]. simpl. by destruct (q (view c)).
Qed.

(** INSERT, UPDATE and DELETE open the transaction. *)
Lemma triple_dml db0 stmt :
  triple (unchanged db0) (execute true stmt) (λ _, in_txn db0) (on_disk db0).
Proof.
  intros c [Hd Hv]. unfold execute.
  destruct (next_failure_spec (begin c)) as (b & s & ->).
  destruct b; [done|]. simpl. by destruct (stmt (view c)).
Qed.

(** The other statements stay inside the transaction that is open. *)
Lemma triple_ddl db0 stmt :
  triple (in_txn db0) (execute false stmt) (λ _, in_txn db0) (on_disk db0).
Proof.
  intros c [Hd Ht]. unfold execute.
  destruct (next_failure_spec c) as (b & s & ->).
  destruct b; [done|]. simpl. destruct (stmt (view c)); [done|].
  unfold store, in_txn. simpl. by rewrite Ht.
Qed.

Lemma triple_commit db0 :
  triple (unchanged db0) commit (λ _ _, True) (on_disk db0).
Proof.
  intros c [Hd Hv]. unfold commit.
  destruct (next_failure_spec c) as (b & s & ->). by destruct b.
Qed.

Lemma triple_for_each {A} db0 (xs : list A) (body : A → M ()) :
  (∀ x, triple (unchanged db0) (body x) (λ _, in_txn db0) (on_disk db0)) →
  triple (unchanged db0) (for_each xs body) (λ _, unchanged db0) (on_disk db0).
Proof.
  intros Hbody. induction xs as [|x xs IH]; simpl.
  - by apply triple_ret.
  - eapply triple_bind; [apply Hbody|]. intros ?.
    eapply triple_weaken; [apply in_txn_unchanged | apply IH].
Qed.

(** A body that keeps the disk until its commit, run under
    [try: ... except: rollback; raise] on a fresh connection, leaves the
    file as it was whenever it raises. *)
Lemma with_connection_rollback {A} (body : M A) s e s' :
  triple (unchanged (file s)) body (λ _ _, True) (on_disk (file s)) →
  with_connection (try_rollback body) s = (inl e, s') →
  file s' = file s.
Proof.
  intros Hbody. unfold with_connection, try_rollback.
  specialize (Hbody (Connection (file s) (file s) false (failures s))).
  destruct (body _) as [[e'|a] c']; intros Heq; simplify_eq/=.
  by apply Hbody.
Qed.

Ltac triple_step :=
  first
    [ apply triple_commit
    | apply triple_dml
    | apply triple_ddl
    | apply triple_query
    | apply triple_query_txn
    | apply triple_ret; intros; try done; by apply in_txn_unchanged
    | apply triple_raise; intros ? [? ?]; done
    | eapply triple_weaken; [apply in_txn_unchanged | apply triple_commit]
    | eapply triple_bind; [ | intros ?] ].

Lemma create_table_body_keeps db0 tid name cols dcols :
  triple (unchanged db0)
    (max_order ← query Sql.select_max_display_order;
     let next_order := py_or max_order (-1) + 1 in
     execute true (Sql.insert_setting (TableSetting tid name cols dcols next_order));;
     execute false (Sql.create_table false tid cols);;
     commit;;
     mret true)
    (λ _ _, True) (on_disk db0).
Proof. repeat triple_step. Qed.

Lemma migration_keeps db0 tid cols old :
  triple (in_txn db0)
    (if bool_decide (list_to_set cols ≠@{gset string} list_to_set old) then
       let temp_table := tid +:+ "_temp" in
       execute false (Sql.create_table false temp_table cols);;
       let common_columns := filter (λ col, col ∈ old) cols in
       (if bool_decide (common_columns ≠ []) then
          execute true (Sql.insert_select temp_table common_columns tid)
        else mret ());;
       execute false (Sql.drop_table false tid);;
       execute false (Sql.rename_table temp_table tid)
     else mret ())
    (λ _, in_txn db0) (on_disk db0).
Proof.
  case_bool_decide; [|by apply triple_ret].
  cbn zeta. eapply triple_bind; [apply triple_ddl|]. intros ?.
  eapply triple_bind; [|intros ?; repeat triple_step].
  case_bool_decide; [|by apply triple_ret].
  eapply triple_weaken; [apply in_txn_unchanged | apply triple_dml].
Qed.

Lemma update_table_body_keeps db0 tid name cols dcols :
  triple (unchanged db0)
    (fetched ← query (Sql.select_columns tid);
     old_columns ← subscript fetched;
     execute true (Sql.update_setting tid name cols dcols);;
     (if bool_decide (list_to_set cols ≠@{gset string} list_to_set old_columns) then
        let temp_table := tid +:+ "_temp" in
        execute false (Sql.create_table false temp_table cols);;
        let common_columns := filter (λ col, col ∈ old_columns) cols in
        (if bool_decide (common_columns ≠ []) then
           execute true (Sql.insert_select temp_table common_columns tid)
         else mret ());;
        execute false (Sql.drop_table false tid);;
        execute false (Sql.rename_table temp_table tid)
      else mret ());;
     commit;;
     mret true)
    (λ _ _, True) (on_disk db0).
Proof.
  eapply triple_bind; [apply triple_query|]. intros fetched.
  eapply triple_bind with (Q := λ _, unchanged db0).
  { destruct fetched; [by apply triple_ret|]. apply triple_raise. by intros ? [? ?]. }
  intros old. eapply triple_bind; [apply triple_dml|]. intros ?.
  eapply triple_bind; [apply migration_keeps|]. intros ?.
  repeat triple_step.
Qed.

Lemma delete_table_body_keeps db0 tid :
  triple (unchanged db0)
    (execute true (Sql.delete_setting tid);;
     execute false (Sql.drop_table true tid);;
     commit;;
     mret true)
    (λ _ _, True) (on_disk db0).
Proof. repeat triple_step. Qed.

Lemma update_table_order_rollback table_orders s e s' :
  update_table_order table_orders s = (inl e, s') → file s' = file s.
Proof.
  apply with_connection_rollback.
  eapply triple_bind; [|intros ?; repeat triple_step].
  apply triple_for_each. intros [tid new_order]. apply triple_dml.
Qed.

Lemma create_table_rollback tid name cols dcols s e s' :
  create_table tid name cols dcols s = (inl e, s') → file s' = file s.
Proof. apply with_connection_rollback, create_table_body_keeps. Qed.

Lemma update_table_rollback tid name cols dcols s e s' :
  update_table tid name cols dcols s = (inl e, s') → file s' = file s.
Proof. apply with_connection_rollback, update_table_body_keeps. Qed.

Lemma delete_table_rollback tid s e s' :
  delete_table tid s = (inl e, s') → file s' = file s.
Proof. apply with_connection_rollback, delete_table_body_keeps. Qed.

(** C1. The schema mutations are all-or-nothing: whenever [create_table],
    [update_table] or [delete_table] ends with an error, whatever the step
    the storage engine failed at, the database file is the one from before
    the call: the same catalog rows, the same data tables with the same
    fields and rows, and no temporary table. *)
Theorem schema_mutation_all_or_nothing :
  ∀ (tid name : string) (cols dcols : list string) (s s' : storage) (e : exn),
    (create_table tid name cols dcols s = (inl e, s') → file s' = file s)
    ∧ (update_table tid name cols dcols s = (inl e, s') → file s' = file s)
    ∧ (delete_table tid s = (inl e, s') → file s' = file s).
Proof.
  intros. split; [|split].
  - apply create_table_rollback.
  - apply update_table_rollback.
  - apply delete_table_rollback.
Qed.

(** The engine fails the copy step of the migration of [fridge]. *)
Lemma schema_mutation_all_or_nothing_witness :
  let s := Storage Sample.fridge_db [false; false; false; true] in
  let call := update_table "fridge" "Fridge" ["item"; "amount"; "expiration_date"]
                ["Item"; "Amount"; "Expiration Date"] in
  (call s).1 = inl (OperationalError EngineFailure)
  ∧ file (call s).2 = Sample.fridge_db.
Proof.
  intros s call. split; [by vm_compute|].
  apply (proj1 (proj2 (schema_mutation_all_or_nothing
           "fridge" "Fridge" ["item"; "amount"; "expiration_date"]
           ["Item"; "Amount"; "Expiration Date"] s (call s).2
           (OperationalError EngineFailure)))).
  by vm_compute.
Defined.

(** ** Calls that return *)

Lemma bind_inr {A B} (m : M A) (k : A → M B) c b c2 :
  (m ≫= k) c = (inr b, c2) → ∃ a c1, m c = (inr a, c1) ∧ k a c1 = (inr b, c2).
Proof.
  unfold mbind, M_bind. destruct (m c) as [[e|a] c1]; [done|]. eauto.
Qed.

Lemma ret_inr {A} (a b : A) c c' :
  (mret a : M A) c = (inr b, c') → b = a ∧ c' = c.
Proof. unfold mret, M_ret. by intros [= -> ->]. Qed.

Lemma execute_inr dml stmt c u c' :
  execute dml stmt c = (inr u, c') → stmt (view c) = inr (view c').
Proof.
  unfold execute.
  destruct (next_failure_spec (if dml then begin c else c)) as (b & s & ->).
  destruct b; [done|]. cbn [view].
  assert (view (if dml then begin c else c) = view c) as -> by by destruct dml.
  destruct (stmt (view c)); [done|]. intros Heq. by simplify_eq/=.
Qed.

Lemma query_inr {A} (q : database → result A) c a c' :
  query q c = (inr a, c') → q (view c) = inr a ∧ view c' = view c.
Proof.
  unfold query. destruct (next_failure_spec c) as (b & s & ->).
  destruct b; [done|]. cbn [view]. destruct (q (view c)); [done|].
  intros Heq. by simplify_eq/=.
Qed.

Lemma commit_inr c u c' :
  commit c = (inr u, c') → disk c' = view c.
Proof.
  unfold commit. destruct (next_failure_spec c) as (b & s & ->).
  destruct b; [done|]. intros Heq. by simplify_eq/=.
Qed.

Lemma with_connection_inr {A} (body : M A) s a s' :
  with_connection (try_rollback body) s = (inr a, s') →
  ∃ c', body (Connection (file s) (file s) false (failures s)) = (inr a, c')
        ∧ file s' = disk c'.
Proof.
  unfold with_connection, try_rollback.
  destruct (body _) as [[e|a'] c']; intros Heq; simplify_eq/=. eauto.
Qed.

(** A call of [create_table] that returns has run its INSERT and its CREATE
    TABLE on the file, in this order. *)
Lemma create_table_inr tid name cols dcols s b s' :
  create_table tid name cols dcols s = (inr b, s') →
  ∃ max_order db1,
    Sql.select_max_display_order (file s) = inr max_order
    ∧ Sql.insert_setting
        (TableSetting tid name cols dcols (py_or max_order (-1) + 1)) (file s) = inr db1
    ∧ Sql.create_table false tid cols db1 = inr (file s').
Proof.
  intros H. apply with_connection_inr in H as (c' & H & ->).
  apply bind_inr in H as (mo & c1 & Hq & H). apply query_inr in Hq as [Hq Hv1].
  cbn zeta in H.
  apply bind_inr in H as (? & c2 & Hins & H). apply execute_inr in Hins.
  apply bind_inr in H as (? & c3 & Hcre & H). apply execute_inr in Hcre.
  apply bind_inr in H as (? & c4 & Hcom & H). apply commit_inr in Hcom.
  apply ret_inr in H as [_ ->].
  exists mo, (view c2). rewrite Hv1 in Hins. simpl in *.
  by rewrite Hcom, <- Hcre.
Qed.

(** A call of [update_table] that returns has updated the catalog row and,
    when the column set changed, created the temporary table, copied the
    common columns into it, dropped the old table and renamed the new one. *)
Lemma update_table_inr tid name cols dcols s b s' :
  update_table tid name cols dcols s = (inr b, s') →
  ∃ old db1,
    Sql.select_columns tid (file s) = inr (Some old)
    ∧ Sql.update_setting tid name cols dcols (file s) = inr db1
    ∧ if bool_decide (list_to_set cols ≠@{gset string} list_to_set old) then
        ∃ db2 db3 db4,
          Sql.create_table false (tid +:+ "_temp") cols db1 = inr db2
          ∧ (if bool_decide (filter (λ col, col ∈ old) cols ≠ []) then
               Sql.insert_select (tid +:+ "_temp")
                 (filter (λ col, col ∈ old) cols) tid db2 = inr db3
             else db3 = db2)
          ∧ Sql.drop_table false tid db3 = inr db4
          ∧ Sql.rename_table (tid +:+ "_temp") tid db4 = inr (file s')
      else file s' = db1.
Proof.
  intros H. apply with_connection_inr in H as (c' & H & ->).
  apply bind_inr in H as (fetched & c1 & Hq & H). apply query_inr in Hq as [Hq Hv1].
  apply bind_inr in H as (old & c2 & Hsub & H).
  destruct fetched as [old'|]; [|done]. apply ret_inr in Hsub as [-> ->].
  apply bind_inr in H as (? & c3 & Hupd & H). apply execute_inr in Hupd.
  apply bind_inr in H as (? & c4 & Hmig & H).
  apply bind_inr in H as (? & c5 & Hcom & H). apply commit_inr in Hcom.
  apply ret_inr in H as [_ ->]. rewrite Hv1 in Hupd. simpl in Hq.
  exists old', (view c3). split; [done|]. split; [done|]. rewrite Hcom.
  case_bool_decide as Hset.
  - cbn zeta in Hmig.
    apply bind_inr in Hmig as (? & d2 & Hcre & Hmig). apply execute_inr in Hcre.
    apply bind_inr in Hmig as (? & d3 & Hcopy & Hmig).
    apply bind_inr in Hmig as (? & d4 & Hdrop & Hmig). apply execute_inr in Hdrop.
    apply execute_inr in Hmig.
    exists (view d2), (view d3), (view d4). repeat split; try done.
    case_bool_decide.
    + by apply execute_inr in Hcopy.
    + by apply ret_inr in Hcopy as [_ ->].
  - by apply ret_inr in Hmig as [_ ->].
Qed.

(** ** The migration *)

Lemma string_length_append (a b : string) :
  String.length (a +:+ b) = (String.length a + String.length b)%nat.
Proof. induction a as [|c a IH]; simpl; [done|]. by rewrite IH. Qed.

Lemma temp_name_ne (tid : string) : tid +:+ "_temp" ≠ tid.
Proof.
  intros H. apply (f_equal String.length) in H.
  rewrite string_length_append in H. simpl in H. lia.
Qed.

Lemma settings_of_inr db rs :
  Sql.settings_of db = inr rs → db !! settings_name = Some (Catalog rs).
Proof.
  unfold Sql.settings_of. destruct (db !! settings_name) as [[rs'|]|]; by intros [= ->].
Qed.

Lemma select_columns_inr tid db old :
  Sql.select_columns tid db = inr (Some old) →
  ∃ rs r, db !! settings_name = Some (Catalog rs)
          ∧ Sql.find_setting tid rs = Some r ∧ columns r = old.
Proof.
  unfold Sql.select_columns. destruct (Sql.settings_of db) as [|rs] eqn:E; [done|].
  apply settings_of_inr in E. destruct (Sql.find_setting tid rs) as [r|] eqn:F; [|done].
  intros [= <-]. eauto.
Qed.

Lemma update_setting_inr tid name cols dcols db db1 rs :
  db !! settings_name = Some (Catalog rs) →
  Sql.update_setting tid name cols dcols db = inr db1 →
  db1 = Sql.put_settings (updated_settings tid name cols dcols rs) db.
Proof.
  unfold Sql.update_setting, Sql.settings_of. intros ->. by intros [= <-].
Qed.

Lemma create_table_stmt_inr name cols db db2 :
  Sql.create_table false name cols db = inr db2 →
  cols ≠ [] ∧ NoDup cols ∧ db !! name = None
  ∧ db2 = <[name := Data (DataTable cols [])]> db.
Proof.
  unfold Sql.create_table. case_bool_decide; [done|].
  destruct (db !! name); [done|]. case_bool_decide; [|done].
  by intros [= <-].
Qed.

(** What a returning [update_table] leaves in the file when it migrates a
    data table: the catalog row is updated, the table has the new fields
    and the migrated rows, and nothing else changed. *)
Lemma update_table_migrates tid name cols dcols s b s' old t :
  update_table tid name cols dcols s = (inr b, s') →
  Sql.select_columns tid (file s) = inr (Some old) →
  file s !! tid = Some (Data t) →
  list_to_set cols ≠@{gset string} list_to_set old →
  ∃ rs, file s !! settings_name = Some (Catalog rs)
    ∧ cols ≠ [] ∧ NoDup cols
    ∧ (filter (λ col, col ∈ old) cols ≠ [] → filter (λ col, col ∈ old) cols ⊆ fields t)
    ∧ file s' =
        <[tid := Data (DataTable cols (migrated_rows old cols t))]>
          (Sql.put_settings (updated_settings tid name cols dcols rs) (file s)).
Proof.
  intros Hrun Hold Ht Hset.
  apply update_table_inr in Hrun as (old' & db1 & Hold' & Hupd & Hmig).
  rewrite Hold in Hold'. injection Hold' as <-.
  apply select_columns_inr in Hold as (rs & r & Hcat & _ & _).
  apply (update_setting_inr _ _ _ _ _ _ _ Hcat) in Hupd.
  rewrite bool_decide_eq_true_2 in Hmig by done.
  destruct Hmig as (db2 & db3 & db4 & Hcre & Hcopy & Hdrop & Hren).
  apply create_table_stmt_inr in Hcre as (Hne & Hnd & Hfresh & ->).
  assert (Hts : tid ≠ settings_name) by (intros ->; congruence).
  assert (Htt := temp_name_ne tid).
  assert (Ht1 : db1 !! tid = Some (Data t)).
  { subst db1. unfold Sql.put_settings. by rewrite lookup_insert_ne. }
  exists rs. split; [done|]. split; [done|]. split; [done|].
  assert (Hsub : filter (λ col, col ∈ old) cols ≠ [] →
                 filter (λ col, col ∈ old) cols ⊆ fields t
                 ∧ db3 = <[tid +:+ "_temp" :=
                            Data (DataTable cols (migrated_rows old cols t))]> db1).
  { intros Hc. rewrite bool_decide_eq_true_2 in Hcopy by done.
    unfold Sql.insert_select in Hcopy.
    rewrite lookup_insert_eq, lookup_insert_ne, Ht1 in Hcopy by done.
    case_bool_decide as Hin; [|done]. injection Hcopy as <-.
    split; [by destruct Hin|]. unfold migrated_rows.
    rewrite bool_decide_eq_true_2 by done. by rewrite insert_insert_eq. }
  assert (Hdb3 : db3 = <[tid +:+ "_temp" :=
                          Data (DataTable cols (migrated_rows old cols t))]> db1).
  { destruct (decide (filter (λ col, col ∈ old) cols = [])) as [Hc|Hc].
    - rewrite bool_decide_eq_false_2 in Hcopy by (by intros ?). subst db3.
      unfold migrated_rows. by rewrite bool_decide_eq_false_2 by (by intros ?).
    - by apply Hsub. }
  split; [intros Hc; by apply Hsub|].
  unfold Sql.drop_table in Hdrop.
  rewrite Hdb3, lookup_insert_ne, Ht1 in Hdrop by done. injection Hdrop as <-.
  unfold Sql.rename_table in Hren.
  rewrite lookup_delete_ne, lookup_insert_eq, lookup_delete_eq in Hren by done.
  injection Hren as <-.
  rewrite (delete_delete _ (tid +:+ "_temp")), delete_insert_eq.
  rewrite (delete_id _ (tid +:+ "_temp")) by done.
  by rewrite insert_delete_eq, Hupd.
Qed.

Lemma append_rows_snd rs new :
  snd <$> Sql.append_rows rs new = ((snd <$> rs) ++ new)%list.
Proof.
  revert rs. induction new as [|r new IH]; intros rs; simpl.
  - by rewrite app_nil_r.
  - rewrite IH, fmap_app. simpl. by rewrite <- app_assoc.
Qed.

Lemma migrated_rows_snd old cols t :
  snd <$> migrated_rows old cols t =
  if bool_decide (filter (λ col, col ∈ old) cols ≠ [])
  then Sql.project (filter (λ col, col ∈ old) cols) <$> (snd <$> rows t)
  else [].
Proof. unfold migrated_rows. by rewrite append_rows_snd. Qed.

Lemma project_lookup_in cols (r : gmap string string) c :
  c ∈ cols → Sql.project cols r !! c = r !! c.
Proof.
  intros Hc. unfold Sql.project. destruct (r !! c) as [v|] eqn:E.
  - by apply map_lookup_filter_Some.
  - apply map_lookup_filter_None. left. done.
Qed.

Lemma project_lookup_notin cols (r : gmap string string) c :
  c ∉ cols → Sql.project cols r !! c = None.
Proof.
  intros Hc. unfold Sql.project. apply map_lookup_filter_None. right.
  intros v _. done.
Qed.

Lemma common_columns_spec (old cols : list string) c :
  c ∈ filter (λ col, col ∈ old) cols ↔ c ∈ cols ∧ c ∈ old.
Proof. rewrite list_elem_of_filter. tauto. Qed.

(** The i-th migrated row is the i-th old row narrowed to the common
    columns, when there is a common column. *)
Lemma migrated_rows_lookup old cols t i :
  filter (λ col, col ∈ old) cols ≠ [] →
  snd <$> (migrated_rows old cols t !! i) =
  Sql.project (filter (λ col, col ∈ old) cols) <$> (snd <$> (rows t !! i)).
Proof.
  intros Hc. rewrite <- !list_lookup_fmap, migrated_rows_snd.
  by rewrite bool_decide_eq_true_2.
Qed.

Lemma migrated_rows_length old cols t :
  filter (λ col, col ∈ old) cols ≠ [] →
  length (migrated_rows old cols t) = length (rows t).
Proof.
  intros Hc. rewrite <- (length_fmap snd), migrated_rows_snd.
  rewrite bool_decide_eq_true_2 by done. by rewrite !length_fmap.
Qed.

Lemma migrated_rows_none old cols t :
  filter (λ col, col ∈ old) cols = [] → migrated_rows old cols t = [].
Proof.
  intros Hc. unfold migrated_rows. by rewrite bool_decide_eq_false_2 by (by intros ?).
Qed.

(** What a returning [update_table] leaves when the column set is the
    same: only the catalog row changed. *)
Lemma update_table_same_set tid name cols dcols s b s' old :
  update_table tid name cols dcols s = (inr b, s') →
  Sql.select_columns tid (file s) = inr (Some old) →
  list_to_set cols =@{gset string} list_to_set old →
  ∃ rs, file s !! settings_name = Some (Catalog rs)
    ∧ file s' = Sql.put_settings (updated_settings tid name cols dcols rs) (file s).
Proof.
  intros Hrun Hold Hset.
  apply update_table_inr in Hrun as (old' & db1 & Hold' & Hupd & Hmig).
  rewrite Hold in Hold'. injection Hold' as <-.
  apply select_columns_inr in Hold as (rs & r & Hcat & _ & _).
  apply (update_setting_inr _ _ _ _ _ _ _ Hcat) in Hupd.
  rewrite bool_decide_eq_false_2 in Hmig by (by intros ?).
  exists rs. split; [done|]. by rewrite Hmig.
Qed.

Lemma data_table_not_settings (db : database) tid t rs :
  db !! tid = Some (Data t) → db !! settings_name = Some (Catalog rs) →
  tid ≠ settings_name.
Proof. intros H1 H2 ->. congruence. Qed.

(** Every definition the schema manager stores has a column: SQLite
    refuses the CREATE TABLE of [create_table] and of a migration when the
    column list is empty, and an unchanged column set is as inhabited as
    the stored one. *)
Lemma create_table_columns_nonempty tid name cols dcols s b s' :
  create_table tid name cols dcols s = (inr b, s') → cols ≠ [].
Proof.
  intros Hrun. apply create_table_inr in Hrun as (? & ? & _ & _ & Hcre).
  by apply create_table_stmt_inr in Hcre as (Hne & _).
Qed.

Lemma update_table_columns_nonempty tid name cols dcols s b s' old :
  update_table tid name cols dcols s = (inr b, s') →
  Sql.select_columns tid (file s) = inr (Some old) →
  old ≠ [] → cols ≠ [].
Proof.
  intros Hrun Hold Hne.
  apply update_table_inr in Hrun as (old' & db1 & Hold' & _ & Hmig).
  rewrite Hold in Hold'. injection Hold' as <-.
  case_bool_decide as Hset.
  - destruct Hmig as (? & ? & ? & Hcre & _).
    by apply create_table_stmt_inr in Hcre as (Hc & _).
  - intros ->. destruct old as [|c old]; [done|].
    assert (c ∈ (list_to_set (c :: old) : gset string)) as Hin
      by apply elem_of_list_to_set, list_elem_of_here.
    rewrite <- Hset in Hin. by apply elem_of_empty in Hin.
Qed.

(** Closed, decidable side conditions are settled by evaluation. *)
Ltac by_compute :=
  lazymatch goal with
  | |- ?P => refine (@bool_decide_unpack P _ _); vm_compute; exact I
  end.

(** C2. When the new column set contains the old one, a returning
    [update_table] keeps every row of the table: the i-th row of the
    migrated table has the values of the i-th old row in every old column,
    and holds nothing (NULL) in each column that is new.  When a column is
    new, the fields of the table are the new columns, in their order; when
    none is, the table is left as it was.  The stored definition is taken
    to have a column, as every table SQLite accepts. *)
Theorem update_table_superset_keeps_rows :
  ∀ (tid name : string) (cols dcols : list string) (s s' : storage) (b : bool)
    (old : list string) (t : data_table),
    update_table tid name cols dcols s = (inr b, s') →
    Sql.select_columns tid (file s) = inr (Some old) →
    file s !! tid = Some (Data t) →
    old ≠ [] →
    old ⊆ cols →
    ∃ t', file s' !! tid = Some (Data t')
      ∧ ((∃ c, c ∈ cols ∧ c ∉ old) → fields t' = cols)
      ∧ ((∀ c, c ∈ cols → c ∈ old) → t' = t)
      ∧ length (rows t') = length (rows t)
      ∧ ∀ i rid r, rows t !! i = Some (rid, r) →
          ∃ rid' r', rows t' !! i = Some (rid', r')
            ∧ (∀ c, c ∈ old → r' !! c = r !! c)
            ∧ (∀ c, c ∈ cols → c ∉ old → r' !! c = None).
Proof.
  intros tid name cols dcols s s' b old t Hrun Hold Ht Hne Hsup.
  destruct (decide (list_to_set cols =@{gset string} list_to_set old)) as [Hset|Hset].
  - destruct (update_table_same_set _ _ _ _ _ _ _ _ Hrun Hold Hset) as (rs & Hcat & ->).
    exists t. split; [|split; [|split; [done|split; [done|]]]].
    + unfold Sql.put_settings. rewrite lookup_insert_ne; [done|].
      intros Heq. by apply (data_table_not_settings _ _ _ _ Ht Hcat).
    + intros (c & Hc & Hnc). destruct Hnc.
      apply (elem_of_list_to_set (C := gset string)). rewrite <- Hset.
      by apply elem_of_list_to_set.
    + intros i rid r Hi. exists rid, r. split; [done|]. split; [done|].
      intros c Hc Hnc. exfalso. apply Hnc.
      apply (elem_of_list_to_set (C := gset string)). rewrite <- Hset.
      by apply elem_of_list_to_set.
  - destruct (update_table_migrates _ _ _ _ _ _ _ _ _ Hrun Hold Ht Hset)
      as (rs & Hcat & _ & _ & _ & ->).
    assert (Hcommon : filter (λ col, col ∈ old) cols ≠ []).
    { destruct old as [|c0 old]; [done|]. intros Hnil.
      assert (c0 ∈ filter (λ col, col ∈ c0 :: old) cols) as Hin.
      { apply common_columns_spec. split; [apply Hsup|]; apply list_elem_of_here. }
      rewrite Hnil in Hin. by apply not_elem_of_nil in Hin. }
    eexists. split; [apply lookup_insert_eq|]. cbn [rows fields].
    split; [done|]. split.
    { intros Hall. destruct Hset. apply set_eq. intros c.
      rewrite !elem_of_list_to_set. split; [apply Hall|apply Hsup]. }
    split; [by apply migrated_rows_length|].
    intros i rid r Hi.
    pose proof (migrated_rows_lookup old cols t i Hcommon) as Hrow.
    rewrite Hi in Hrow. cbn in Hrow.
    destruct (migrated_rows old cols t !! i) as [[rid' r']|]; [|done].
    injection Hrow as ->. exists rid'. eexists. split; [done|]. split.
    + intros c Hc. apply project_lookup_in, common_columns_spec. split; [by apply Hsup|done].
    + intros c Hc Hnc. apply project_lookup_notin. rewrite common_columns_spec. tauto.
Qed.

(** The fridge of the specification gets the column [expiration_date]: its
    row keeps milk and 1 and holds nothing in the new column. *)
Lemma update_table_superset_keeps_rows_witness :
  let s := Storage Sample.fridge_db [] in
  let call := update_table "fridge" "Fridge" ["item"; "amount"; "expiration_date"]
                ["Item"; "Amount"; "Expiration Date"] in
  ∃ t' rid' r',
    file (call s).2 !! "fridge" = Some (Data t')
    ∧ fields t' = ["item"; "amount"; "expiration_date"]
    ∧ rows t' !! 0%nat = Some (rid', r')
    ∧ r' !! "item" = Some "milk" ∧ r' !! "amount" = Some "1"
    ∧ r' !! "expiration_date" = None.
Proof.
  intros s call.
  destruct (update_table_superset_keeps_rows
              "fridge" "Fridge" ["item"; "amount"; "expiration_date"]
              ["Item"; "Amount"; "Expiration Date"] s (call s).2 true
              ["item"; "amount"] (DataTable ["item"; "amount"] [(1, Sample.milk)]))
    as (t' & Ht' & Hfields & _ & _ & Hrows).
  - by vm_compute.
  - by vm_compute.
  - by vm_compute.
  - done.
  - by_compute.
  - destruct (Hrows 0%nat 1 Sample.milk eq_refl) as (rid' & r' & Hr' & Hold & Hnew).
    exists t', rid', r'. split; [exact Ht'|]. split.
    { apply Hfields. exists "expiration_date". split; by_compute. }
    split; [exact Hr'|].
    rewrite !Hold by by_compute. rewrite Hnew by by_compute.
    clear. vm_compute. repeat split; reflexivity.
Defined.

(** C3. When some old column is missing from the new column set, a
    returning [update_table] leaves a table whose fields are the new
    columns; no row of it holds anything in a column that is not among the
    new ones, so in no dropped column; and its i-th row comes from the i-th
    old row, with the same values in the columns common to both sets. *)
Theorem update_table_drops_columns :
  ∀ (tid name : string) (cols dcols : list string) (s s' : storage) (b : bool)
    (old : list string) (t : data_table),
    update_table tid name cols dcols s = (inr b, s') →
    Sql.select_columns tid (file s) = inr (Some old) →
    file s !! tid = Some (Data t) →
    (∃ c, c ∈ old ∧ c ∉ cols) →
    ∃ t', file s' !! tid = Some (Data t')
      ∧ fields t' = cols
      ∧ (∀ c, c ∈ old → c ∉ cols →
           (c ∉ fields t')
           ∧ (∀ i rid' r', rows t' !! i = Some (rid', r') → r' !! c = None))
      ∧ (∀ i rid' r', rows t' !! i = Some (rid', r') →
           (∀ c, c ∉ cols → r' !! c = None)
           ∧ ∃ rid r, rows t !! i = Some (rid, r)
                      ∧ ∀ c, c ∈ old → c ∈ cols → r' !! c = r !! c)
      ∧ ((∃ c, c ∈ old ∧ c ∈ cols) → length (rows t') = length (rows t)).
Proof.
  intros tid name cols dcols s s' b old t Hrun Hold Ht (c0 & Hc0 & Hc0').
  assert (Hset : list_to_set cols ≠@{gset string} list_to_set old).
  { intros Heq. apply Hc0'. apply (elem_of_list_to_set (C := gset string)).
    rewrite Heq. by apply elem_of_list_to_set. }
  destruct (update_table_migrates _ _ _ _ _ _ _ _ _ Hrun Hold Ht Hset)
    as (rs & Hcat & _ & _ & _ & ->).
  assert (Hrow : ∀ i rid' r', migrated_rows old cols t !! i = Some (rid', r') →
            filter (λ col, col ∈ old) cols ≠ []
            ∧ ∃ rid r, rows t !! i = Some (rid, r)
                ∧ r' = Sql.project (filter (λ col, col ∈ old) cols) r).
  { intros i rid' r' Hi.
    destruct (decide (filter (λ col, col ∈ old) cols = [])) as [Hnil|Hcommon].
    { by rewrite migrated_rows_none in Hi. }
    split; [done|].
    pose proof (migrated_rows_lookup old cols t i Hcommon) as Hl.
    rewrite Hi in Hl. cbn in Hl.
    destruct (rows t !! i) as [[rid r]|]; [|done].
    injection Hl as ->. eauto. }
  eexists. split; [apply lookup_insert_eq|]. cbn [fields rows].
  split; [done|]. split; [|split].
  - intros c Hc Hnc. split; [done|]. intros i rid' r' Hi.
    destruct (Hrow _ _ _ Hi) as (_ & rid & r & _ & ->).
    apply project_lookup_notin. rewrite common_columns_spec. tauto.
  - intros i rid' r' Hi.
    destruct (Hrow _ _ _ Hi) as (_ & rid & r & Hr & ->). split.
    + intros c Hnc. apply project_lookup_notin. rewrite common_columns_spec. tauto.
    + exists rid, r. split; [done|]. intros c Hc Hc'.
      apply project_lookup_in, common_columns_spec. tauto.
  - intros (c & Hc & Hc'). apply migrated_rows_length. intros Hnil.
    assert (c ∈ filter (λ col, col ∈ old) cols) as Hin by by apply common_columns_spec.
    rewrite Hnil in Hin. by apply not_elem_of_nil in Hin.
Qed.

(** The fridge with three columns loses [expiration_date]: its row keeps
    milk and 1, and the date is gone. *)
Lemma update_table_drops_columns_witness :
  let s := Storage Sample.dated_fridge_db [] in
  let call := update_table "fridge" "Fridge" ["item"; "amount"] ["Item"; "Amount"] in
  ∃ t' rid' r',
    file (call s).2 !! "fridge" = Some (Data t')
    ∧ fields t' = ["item"; "amount"]
    ∧ rows t' = [(rid', r')]
    ∧ r' !! "item" = Some "milk" ∧ r' !! "amount" = Some "1"
    ∧ r' !! "expiration_date" = None.
Proof.
  intros s call.
  destruct (update_table_drops_columns
              "fridge" "Fridge" ["item"; "amount"] ["Item"; "Amount"]
              s (call s).2 true ["item"; "amount"; "expiration_date"]
              (DataTable ["item"; "amount"; "expiration_date"] [(1, Sample.dated_milk)]))
    as (t' & Ht' & Hf & Hdrop & Hrows & Hlen).
  - by vm_compute.
  - by vm_compute.
  - by vm_compute.
  - exists "expiration_date". split; by_compute.
  - assert (length (rows t') = 1%nat) as Hl.
    { apply Hlen. exists "item". split; by_compute. }
    destruct (rows t') as [|[rid' r'] [|? ?]] eqn:Er; try discriminate Hl.
    destruct (Hrows 0%nat rid' r' eq_refl) as (Hgone & rid & r & Hr & Hkeep).
    injection Hr as <- <-.
    exists t', rid', r'. split; [exact Ht'|]. split; [exact Hf|]. split; [exact Er|].
    rewrite !Hkeep by by_compute. rewrite Hgone by by_compute.
    clear. vm_compute. repeat split; reflexivity.
Defined.

(** C10. When the new columns share no identifier with the old ones, a
    returning [update_table] on a table that holds rows leaves a table with
    the new fields and no row at all.  The stored definition is taken to
    have a column, as every table SQLite accepts. *)
Theorem update_table_disjoint_discards_rows :
  ∀ (tid name : string) (cols dcols : list string) (s s' : storage) (b : bool)
    (old : list string) (t : data_table),
    update_table tid name cols dcols s = (inr b, s') →
    Sql.select_columns tid (file s) = inr (Some old) →
    file s !! tid = Some (Data t) →
    rows t ≠ [] →
    old ≠ [] →
    (∀ c, c ∈ old → c ∉ cols) →
    ∃ t', file s' !! tid = Some (Data t') ∧ fields t' = cols ∧ rows t' = [].
Proof.
  intros tid name cols dcols s s' b old t Hrun Hold Ht _ Hne Hdisj.
  assert (Hset : list_to_set cols ≠@{gset string} list_to_set old).
  { destruct old as [|c0 old]; [done|]. intros Heq.
    apply (Hdisj c0); [apply list_elem_of_here|].
    apply (elem_of_list_to_set (C := gset string)). rewrite Heq.
    apply elem_of_list_to_set, list_elem_of_here. }
  destruct (update_table_migrates _ _ _ _ _ _ _ _ _ Hrun Hold Ht Hset)
    as (rs & Hcat & _ & _ & _ & ->).
  eexists. split; [apply lookup_insert_eq|]. split; [done|]. cbn [rows].
  apply migrated_rows_none.
  destruct (filter (λ col, col ∈ old) cols) as [|c l] eqn:E; [done|].
  assert (c ∈ filter (λ col, col ∈ old) cols) as Hin by (rewrite E; apply list_elem_of_here).
  apply common_columns_spec in Hin as [Hc Hc']. by destruct (Hdisj c Hc').
Qed.

(** The fridge holding milk is given the single column [note]. *)
Lemma update_table_disjoint_discards_rows_witness :
  let s := Storage Sample.fridge_db [] in
  let call := update_table "fridge" "Fridge" ["note"] ["Note"] in
  ∃ t', file (call s).2 !! "fridge" = Some (Data t')
        ∧ fields t' = ["note"] ∧ rows t' = [].
Proof.
  intros s call.
  apply (update_table_disjoint_discards_rows
           "fridge" "Fridge" ["note"] ["Note"] s (call s).2 true
           ["item"; "amount"] (DataTable ["item"; "amount"] [(1, Sample.milk)])).
  - by vm_compute.
  - by vm_compute.
  - by vm_compute.
  - done.
  - done.
  - intros c Hc Hn. apply list_elem_of_singleton in Hn. subst c.
    revert Hc. by_compute.
Defined.

(** ** An unchanged column set *)

(** C6. When the set of column identifiers is the one stored, whatever
    their order and whatever the labels, [update_table] touches no data
    table: every relation other than the catalog is the same after the call
    as before, whether the call returns or raises.  A call that returns has
    rewritten the catalog row of the table (name, column list, label list,
    the rank kept) and no other row; and the call returns whenever the
    engine does not fail. *)
Theorem update_table_same_set_keeps_tables :
  ∀ (tid name : string) (cols dcols : list string) (s : storage) (old : list string),
    Sql.select_columns tid (file s) = inr (Some old) →
    list_to_set cols =@{gset string} list_to_set old →
    (∀ r s', update_table tid name cols dcols s = (r, s') →
       ∀ n, n ≠ settings_name → file s' !! n = file s !! n)
    ∧ (∀ b s', update_table tid name cols dcols s = (inr b, s') →
         ∃ rs, file s !! settings_name = Some (Catalog rs)
           ∧ file s' = Sql.put_settings (updated_settings tid name cols dcols rs) (file s))
    ∧ (failures s = [] → ∃ s', update_table tid name cols dcols s = (inr true, s')).
Proof.
  intros tid name cols dcols s old Hsel Hset.
  assert (Hok : ∀ b s', update_table tid name cols dcols s = (inr b, s') →
           ∃ rs, file s !! settings_name = Some (Catalog rs)
             ∧ file s' = Sql.put_settings (updated_settings tid name cols dcols rs) (file s)).
  { intros b s' Hrun. by eapply update_table_same_set. }
  split; [|split; [exact Hok|]].
  - intros [e|b] s' Hrun n Hn.
    + by rewrite (update_table_rollback _ _ _ _ _ _ _ Hrun).
    + destruct (Hok _ _ Hrun) as (rs & _ & ->).
      unfold Sql.put_settings. by rewrite lookup_insert_ne.
  - destruct s as [db fl]. cbn [failures file] in *. intros ->.
    pose proof Hsel as Hsel'.
    apply select_columns_inr in Hsel' as (rs & r & Hcat & _ & _).
    eexists. unfold update_table, with_connection, try_rollback.
    unfold mbind, M_bind, query, execute, commit, next_failure. cbn.
    rewrite Hsel. cbn. unfold Sql.update_setting, Sql.settings_of. rewrite Hcat. cbn.
    rewrite bool_decide_eq_false_2 by (by intros ?). cbn. reflexivity.
Qed.

(** The fridge gets its two columns in the other order, with new labels. *)
Lemma update_table_same_set_keeps_tables_witness :
  let s := Storage Sample.fridge_db [] in
  let call := update_table "fridge" "Cooler" ["amount"; "item"] ["How many"; "What"] in
  (call s).1 = inr true
  ∧ file (call s).2 !! "fridge" = Some (Data (DataTable ["item"; "amount"] [(1, Sample.milk)]))
  ∧ file (call s).2 !! "pantry" = Sample.fridge_db !! "pantry".
Proof.
  intros s call.
  destruct (update_table_same_set_keeps_tables
              "fridge" "Cooler" ["amount"; "item"] ["How many"; "What"] s ["item"; "amount"])
    as (Hframe & _ & _).
  - by vm_compute.
  - by_compute.
  - split; [by vm_compute|].
    rewrite !(Hframe (call s).1 (call s).2 (surjective_pairing _)) by discriminate.
    split; by vm_compute.
Defined.

(** ** Display ranks *)

(** The rank [create_table] computes from [MAX(display_order)]. *)
Lemma next_order_cases (rs : list table_setting) :
  py_or (Sql.max_order rs) (-1) + 1 =
  match Sql.max_order rs with
  | None => 0
  | Some m => if m =? 0 then 0 else m + 1
  end.
Proof. unfold py_or. destruct (Sql.max_order rs) as [m|]; [|done]. by destruct (m =? 0). Qed.

(** A returning [create_table] appended one catalog row, with the rank
    computed from the rows that were there, and created the empty table. *)
Lemma create_table_appends tid name cols dcols s b s' :
  create_table tid name cols dcols s = (inr b, s') →
  ∃ rs, file s !! settings_name = Some (Catalog rs)
    ∧ file s' =
        <[tid := Data (DataTable cols [])]>
          (Sql.put_settings
             (rs ++ [TableSetting tid name cols dcols (py_or (Sql.max_order rs) (-1) + 1)])
             (file s)).
Proof.
  intros Hrun. apply create_table_inr in Hrun as (mo & db1 & Hmax & Hins & Hcre).
  unfold Sql.select_max_display_order in Hmax.
  destruct (Sql.settings_of (file s)) as [|rs] eqn:Hcat; [done|]. injection Hmax as <-.
  unfold Sql.insert_setting in Hins. rewrite Hcat in Hins.
  destruct (negb _); [done|]. cbn [table_id] in Hins.
  destruct (Sql.find_setting tid rs); [done|]. injection Hins as <-.
  apply create_table_stmt_inr in Hcre as (_ & _ & _ & ->).
  exists rs. split; [by apply settings_of_inr|done].
Qed.

(** C5, at the input where the code departs from it.  After the first
    startup and the deletion of [basement_freezer] the catalog holds
    [pantry] alone, at rank 0, so the highest rank is 0; [create_table]
    then gives the new definition rank 0 again, not 1: in
    [(max_order or -1) + 1] the maximum 0 is falsy and is replaced by -1. *)
Theorem create_table_rank_after_rank_zero :
  let s0 := (init_database (Storage ∅ [])).2 in
  let s1 := (delete_table "basement_freezer" s0).2 in
  let call := create_table "fridge" "Fridge" ["item"; "amount"] ["Item"; "Amount"] in
  Sql.select_max_display_order (file s1) = inr (Some 0)
  ∧ (call s1).1 = inr true
  ∧ Sql.select_display_order "fridge" (file (call s1).2) = inr (Some 0)
  ∧ Sql.select_display_order "pantry" (file (call s1).2) = inr (Some 0).
Proof. by vm_compute. Qed.

(** C4, at the input of the specification.  [update_table_order] writes the
    ranks it is given and commits; it does not call [ensure_pantry_first].
    With [pantry] at 2 and [fridge] at 0 the listing starts with [fridge]
    and [pantry] stays at rank 2, until [ensure_pantry_first] is run, as at
    the next startup, which puts [pantry] at 0 and [fridge] at 1. *)
Theorem update_table_order_leaves_pantry_behind :
  let s := Storage Sample.fridge_db [] in
  let call := update_table_order [("pantry", 2); ("fridge", 0)] in
  (call s).1 = inr true
  ∧ listing (call s).2 = inr [("fridge", 0); ("pantry", 2)]
  ∧ listing (ensure_pantry_first (call s).2).2 = inr [("pantry", 0); ("fridge", 1)].
Proof. by vm_compute. Qed.

(** ** Repeated identifiers *)






(** ** First startup *)

(** Calls on an engine that does not fail. *)

Lemma bind_run {A B} (m : M A) (k : A → M B) c a c1 :
  m c = (inr a, c1) → (m ≫= k) c = k a c1.
Proof. intros H. unfold mbind, M_bind. by rewrite H. Qed.

Lemma query_run {A} (q : database → result A) d v t a :
  q v = inr a →
  query q (Connection d v t []) = (inr a, Connection d v t []).
Proof. intros H. unfold query. cbn. by rewrite H. Qed.

Lemma execute_dml_run stmt d v t db :
  stmt v = inr db →
  execute true stmt (Connection d v t []) = (inr (), Connection d db true []).
Proof. intros H. unfold execute. cbn. by rewrite H. Qed.

Lemma execute_ddl_run stmt d v db :
  stmt v = inr db →
  execute false stmt (Connection d v true []) = (inr (), Connection d db true []).
Proof. intros H. unfold execute. cbn. by rewrite H. Qed.


Lemma commit_run d v t :
  commit (Connection d v t []) = (inr (), Connection v v false []).
Proof. done. Qed.








(** * Further properties of the schema manager *)

(** ** Creating a definition *)

Lemma find_setting_Some tid rs r :
  Sql.find_setting tid rs = Some r → r ∈ rs ∧ table_id r = tid.
Proof.
  unfold Sql.find_setting. intros H. apply find_some in H as [Hin Heq].
  split; [by apply list_elem_of_In|]. by apply String.eqb_eq.
Qed.

Lemma find_setting_None tid rs :
  Sql.find_setting tid rs = None ↔ tid ∉ table_id <$> rs.
Proof.
  unfold Sql.find_setting. induction rs as [|r rs IH]; simpl.
  - split; [intros _; apply not_elem_of_nil|done].
  - rewrite not_elem_of_cons. destruct (String.eqb_spec (table_id r) tid) as [->|Hne].
    + split; [done|]. by intros [? _].
    + rewrite IH. split; [by intros ?; split|by intros [_ ?]].
Qed.

Lemma find_setting_app_new tid rs r :
  Sql.find_setting tid rs = None → table_id r = tid →
  Sql.find_setting tid (rs ++ [r]) = Some r.
Proof.
  unfold Sql.find_setting. intros Hnone Hid. induction rs as [|r0 rs IH]; simpl in *.
  - by rewrite Hid, String.eqb_refl.
  - destruct (String.eqb (table_id r0) tid); [done|]. by apply IH.
Qed.

(** A returning [create_table] found the identifier free, in the catalog
    and among the relations of the file. *)
Lemma create_table_inr_free tid name cols dcols s b s' :
  create_table tid name cols dcols s = (inr b, s') →
  ∃ rs, file s !! settings_name = Some (Catalog rs)
    ∧ Sql.find_setting tid rs = None
    ∧ file s !! tid = None
    ∧ Sql.fits_integer (py_or (Sql.max_order rs) (-1) + 1) = true.
Proof.
  intros Hrun. apply create_table_inr in Hrun as (mo & db1 & Hmax & Hins & Hcre).
  unfold Sql.select_max_display_order in Hmax.
  destruct (Sql.settings_of (file s)) as [|rs] eqn:Hcat; [done|]. injection Hmax as <-.
  apply settings_of_inr in Hcat.
  unfold Sql.insert_setting, Sql.settings_of in Hins. rewrite Hcat in Hins. cbn [display_order table_id] in Hins.
  destruct (Sql.fits_integer _) eqn:Hfit; [|done]. cbn [negb] in Hins.
  destruct (Sql.find_setting tid rs) eqn:Hfind; [done|]. injection Hins as <-.
  apply create_table_stmt_inr in Hcre as (_ & _ & Hfree & _).
  exists rs. split; [done|]. split; [done|]. split; [|done].
  unfold Sql.put_settings in Hfree.
  destruct (decide (tid = settings_name)) as [->|Hne].
  - by rewrite lookup_insert_eq in Hfree.
  - by rewrite lookup_insert_ne in Hfree.
Qed.

(** X1. [create_table] never replaces anything: when the identifier is
    already that of a relation of the file (a data table, or the catalog
    itself), or of a catalog row, the call raises, whatever the engine
    does, and the file stays as it was. *)
Theorem create_table_never_overwrites :
  ∀ (tid name : string) (cols dcols : list string) (s : storage),
    (is_Some (file s !! tid)
     ∨ ∃ rs, file s !! settings_name = Some (Catalog rs)
             ∧ tid ∈ table_id <$> rs) →
    ∃ e, (create_table tid name cols dcols s).1 = inl e
         ∧ file (create_table tid name cols dcols s).2 = file s.
Proof.
  intros tid name cols dcols s Hused.
  destruct (create_table tid name cols dcols s) as [[e|b] s'] eqn:Hrun.
  - exists e. split; [done|]. by eapply create_table_rollback.
  - exfalso. apply create_table_inr_free in Hrun as (rs & Hcat & Hfind & Hfree & _).
    destruct Hused as [[r Hr]|(rs' & Hcat' & Hin)]; [congruence|].
    rewrite Hcat in Hcat'. injection Hcat' as <-.
    by apply find_setting_None in Hfind.
Qed.

Lemma create_table_never_overwrites_witness :
  let call := create_table "fridge" "Other" ["x"] ["X"] (Storage Sample.fridge_db []) in
  ∃ e, call.1 = inl e ∧ file call.2 = Sample.fridge_db.
Proof.
  intros call.
  apply (create_table_never_overwrites "fridge" "Other" ["x"] ["X"]
           (Storage Sample.fridge_db [])).
  left. eexists. vm_compute. reflexivity.
Defined.

(** X2. What a returning [create_table] leaves, for an identifier that is
    a bare name and columns that name themselves between brackets: the
    catalog rows of before, in their order, followed by the new definition
    with the name, columns and labels given; an empty data table with these
    columns as fields; and every other relation as it was.  Reading the
    definition back gives the columns that were passed. *)
Theorem create_table_then_lookup :
  ∀ (tid name : string) (cols dcols : list string) (s s' : storage) (b : bool),
    bare_name tid = true →
    forallb plain_column cols = true →
    create_table tid name cols dcols s = (inr b, s') →
    ∃ rs rank,
      file s !! settings_name = Some (Catalog rs)
      ∧ file s' !! settings_name
        = Some (Catalog (rs ++ [TableSetting tid name cols dcols rank]))
      ∧ Sql.select_columns tid (file s') = inr (Some cols)
      ∧ file s' !! tid = Some (Data (DataTable cols []))
      ∧ (∀ n, n ≠ tid → n ≠ settings_name → file s' !! n = file s !! n).
Proof.
  intros tid name cols dcols s s' b _ _ Hrun.
  pose proof (create_table_inr_free _ _ _ _ _ _ _ Hrun) as (rs & Hcat & Hfind & Hfree & _).
  apply create_table_appends in Hrun as (rs' & Hcat' & ->).
  rewrite Hcat in Hcat'. injection Hcat' as <-.
  assert (Hne : tid ≠ settings_name) by (intros ->; congruence).
  exists rs, (py_or (Sql.max_order rs) (-1) + 1). unfold Sql.put_settings.
  split; [done|]. split; [by rewrite lookup_insert_ne, lookup_insert_eq|].
  split; [|split].
  - unfold Sql.select_columns, Sql.settings_of.
    rewrite lookup_insert_ne, lookup_insert_eq by done.
    by erewrite find_setting_app_new.
  - by rewrite lookup_insert_eq.
  - intros n H1 H2. by rewrite !lookup_insert_ne.
Qed.

Lemma create_table_then_lookup_witness :
  let call := create_table "cellar" "Cellar" ["item"; "amount"] ["Item"; "Amount"]
                (Storage Sample.fridge_db []) in
  Sql.select_columns "cellar" (file call.2) = inr (Some ["item"; "amount"])
  ∧ file call.2 !! "cellar" = Some (Data (DataTable ["item"; "amount"] []))
  ∧ file call.2 !! "fridge" = Sample.fridge_db !! "fridge".
Proof.
  intros call.
  destruct (create_table_then_lookup "cellar" "Cellar" ["item"; "amount"] ["Item"; "Amount"]
              (Storage Sample.fridge_db []) call.2 true)
    as (rs & rank & _ & _ & Hcols & Htab & Hframe).
  - reflexivity.
  - reflexivity.
  - by vm_compute.
  - split; [exact Hcols|]. split; [exact Htab|]. by apply Hframe.
Defined.

(** X3. The rank of a new definition, for every catalog: 0 in an empty
    catalog, the highest rank plus one when the highest rank is not 0, and
    0 again when the highest rank is 0. *)
Theorem create_table_rank :
  ∀ (tid name : string) (cols dcols : list string) (s s' : storage) (b : bool)
    (rs : list table_setting),
    create_table tid name cols dcols s = (inr b, s') →
    file s !! settings_name = Some (Catalog rs) →
    Sql.select_display_order tid (file s')
    = inr (Some (match Sql.max_order rs with
                 | None => 0
                 | Some m => if m =? 0 then 0 else m + 1
                 end)).
Proof.
  intros tid name cols dcols s s' b rs Hrun Hcat.
  pose proof (create_table_inr_free _ _ _ _ _ _ _ Hrun) as (rs' & Hcat' & Hfind & Hfree & _).
  rewrite Hcat in Hcat'. injection Hcat' as <-.
  apply create_table_appends in Hrun as (rs' & Hcat' & ->).
  rewrite Hcat in Hcat'. injection Hcat' as <-.
  assert (Hne : tid ≠ settings_name) by (intros ->; congruence).
  unfold Sql.select_display_order, Sql.settings_of, Sql.put_settings.
  rewrite lookup_insert_ne, lookup_insert_eq by done.
  erewrite find_setting_app_new by done.
  cbn [fmap option_fmap option_map display_order].
  by rewrite next_order_cases.
Qed.

Lemma create_table_rank_witness :
  let call := create_table "cellar" "Cellar" ["item"] ["Item"] (Storage Sample.fridge_db []) in
  Sql.select_display_order "cellar" (file call.2) = inr (Some 2).
Proof.
  intros call.
  apply (create_table_rank "cellar" "Cellar" ["item"] ["Item"]
           (Storage Sample.fridge_db []) call.2 true
           [ TableSetting "pantry" "Pantry" ["item"; "dateofpurchase"; "amount"]
               ["Item"; "Date of Purchase"; "Amount"] 0;
             TableSetting "fridge" "Fridge" ["item"; "amount"] ["Item"; "Amount"] 1 ]).
  - by vm_compute.
  - by vm_compute.
Defined.

(** ** Deleting a definition *)

Lemma delete_table_inr tid s b s' :
  delete_table tid s = (inr b, s') →
  ∃ rs, file s !! settings_name = Some (Catalog rs)
    ∧ file s' =
        delete tid (Sql.put_settings
                      (List.filter (fun r => negb (String.eqb (table_id r) tid)) rs) (file s)).
Proof.
  intros H. apply with_connection_inr in H as (c' & H & ->).
  apply bind_inr in H as (? & c1 & Hdel & H). apply execute_inr in Hdel.
  apply bind_inr in H as (? & c2 & Hdrop & H). apply execute_inr in Hdrop.
  apply bind_inr in H as (? & c3 & Hcom & H). apply commit_inr in Hcom.
  apply ret_inr in H as [_ ->]. rewrite Hcom. cbn [view] in Hdel.
  unfold Sql.delete_setting in Hdel.
  destruct (Sql.settings_of (file s)) as [|rs] eqn:Hcat; [done|].
  apply settings_of_inr in Hcat. injection Hdel as Hdel. rewrite <- Hdel in Hdrop.
  exists rs. split; [done|]. unfold Sql.drop_table in Hdrop.
  destruct (_ !! tid) eqn:Htid; injection Hdrop as <-; [done|].
  by rewrite delete_id.
Qed.

Lemma filter_other_ids tid (rs : list table_setting) :
  List.filter (fun r => negb (String.eqb (table_id r) tid)) rs
  = filter (λ r, table_id r ≠ tid) rs.
Proof.
  induction rs as [|r rs IH]; [done|]. simpl. rewrite IH.
  destruct (String.eqb_spec (table_id r) tid) as [Heq|Hne]; simpl.
  - by rewrite filter_cons_False by (by intros ?).
  - by rewrite filter_cons_True.
Qed.

Lemma filter_other_ids_id tid (rs : list table_setting) :
  tid ∉ table_id <$> rs →
  List.filter (fun r => negb (String.eqb (table_id r) tid)) rs = rs.
Proof.
  induction rs as [|r rs IH]; [done|]. simpl. rewrite not_elem_of_cons. intros [Hne Hnot].
  destruct (String.eqb_spec (table_id r) tid) as [Heq|_]; [by destruct Hne|].
  simpl. by rewrite IH.
Qed.

(** The catalog a returning [delete_table] leaves. *)
Lemma delete_table_catalog tid s s' b :
  tid ≠ settings_name →
  delete_table tid s = (inr b, s') →
  file s' !! tid = None
  ∧ ∃ rs, file s !! settings_name = Some (Catalog rs)
      ∧ file s' !! settings_name = Some (Catalog (filter (λ r, table_id r ≠ tid) rs)).
Proof.
  intros Hne Hrun. apply delete_table_inr in Hrun as (rs & Hcat & ->).
  unfold Sql.put_settings. split; [apply lookup_delete_eq|]. exists rs. split; [done|].
  by rewrite lookup_delete_ne, lookup_insert_eq, filter_other_ids.
Qed.

(** X4. What a returning [delete_table] leaves, for an identifier that is
    a bare name and that no other relation of the file has in another
    letter case: no relation under the identifier (so
    [delete_table "table_settings"] removes the catalog itself); for any
    other identifier the catalog rows of the other definitions, in their
    order, and none for this one; and every other data table as it was. *)
Theorem delete_table_removes :
  ∀ (tid : string) (s s' : storage) (b : bool),
    names_itself tid (file s) = true →
    delete_table tid s = (inr b, s') →
    file s' !! tid = None
    ∧ (∀ n, n ≠ tid → n ≠ settings_name → file s' !! n = file s !! n)
    ∧ (tid ≠ settings_name →
         ∃ rs, file s !! settings_name = Some (Catalog rs)
           ∧ file s' !! settings_name = Some (Catalog (filter (λ r, table_id r ≠ tid) rs))
           ∧ Sql.select_columns tid (file s') = inr None).
Proof.
  intros tid s s' b _ Hrun. split; [|split].
  - apply delete_table_inr in Hrun as (rs & _ & ->). apply lookup_delete_eq.
  - apply delete_table_inr in Hrun as (rs & _ & ->). unfold Sql.put_settings.
    intros n H1 H2. by rewrite lookup_delete_ne, lookup_insert_ne.
  - intros Hne. destruct (delete_table_catalog _ _ _ _ Hne Hrun) as (_ & rs & Hcat & Hafter).
    exists rs. split; [done|]. split; [done|].
    unfold Sql.select_columns, Sql.settings_of. rewrite Hafter.
    destruct (Sql.find_setting tid _) as [r|] eqn:Hfind; [|done].
    apply find_setting_Some in Hfind as [Hin Hid].
    apply list_elem_of_filter in Hin as [Hn _]. by destruct Hn.
Qed.

Lemma delete_table_removes_witness :
  let call := delete_table "fridge" (Storage Sample.fridge_db []) in
  file call.2 !! "fridge" = None
  ∧ file call.2 !! "pantry" = Sample.fridge_db !! "pantry"
  ∧ Sql.select_columns "fridge" (file call.2) = inr None.
Proof.
  intros call.
  destruct (delete_table_removes "fridge" (Storage Sample.fridge_db []) call.2 true)
    as (Hgone & Hframe & Hcat).
  - vm_compute. reflexivity.
  - by vm_compute.
  - split; [exact Hgone|]. split; [by apply Hframe|].
    by destruct Hcat as (rs & _ & _ & Hsel).
Defined.

(** Deleting what is not there, on an engine that does not fail. *)
Lemma delete_table_absent tid db rs :
  db !! settings_name = Some (Catalog rs) →
  tid ∉ table_id <$> rs →
  db !! tid = None →
  delete_table tid (Storage db []) = (inr true, Storage db []).
Proof.
  intros Hcat Hnot Hfree. assert (Hne : tid ≠ settings_name) by (intros ->; congruence).
  assert (Hput : Sql.delete_setting tid db = inr db).
  { unfold Sql.delete_setting, Sql.settings_of. rewrite Hcat.
    rewrite filter_other_ids_id by done. unfold Sql.put_settings. by rewrite insert_id. }
  unfold delete_table, with_connection, try_rollback. cbn [file failures].
  erewrite bind_run; [|by apply execute_dml_run].
  erewrite bind_run; cycle 1.
  { apply execute_ddl_run. unfold Sql.drop_table. rewrite Hfree. reflexivity. }
  erewrite bind_run; [|apply commit_run]. reflexivity.
Qed.

(** X5. Deleting twice: after a [delete_table] that returned, for an
    identifier other than that of the catalog that is a bare name and that
    no other relation of the file has in another letter case, a second
    [delete_table] of the same identifier returns as well when the engine
    does not fail, and changes nothing. *)
Theorem delete_table_twice :
  ∀ (tid : string) (s s1 : storage) (b : bool),
    tid ≠ settings_name →
    names_itself tid (file s) = true →
    delete_table tid s = (inr b, s1) →
    failures s1 = [] →
    delete_table tid s1 = (inr true, s1).
Proof.
  intros tid s s1 b Hne _ Hrun Hfail.
  destruct (delete_table_catalog _ _ _ _ Hne Hrun) as (Hgone & rs & _ & Hafter).
  destruct s1 as [db fl]. cbn [file failures] in *. subst fl.
  eapply delete_table_absent; [done| |done].
  intros Hin. apply list_elem_of_fmap in Hin as (r & Hid & Hr).
  apply list_elem_of_filter in Hr as [Hn _]. by destruct Hn.
Qed.

Lemma delete_table_twice_witness :
  let s1 := (delete_table "fridge" (Storage Sample.fridge_db [])).2 in
  delete_table "fridge" s1 = (inr true, s1).
Proof.
  intros s1.
  apply (delete_table_twice "fridge" (Storage Sample.fridge_db []) s1 true).
  - discriminate.
  - vm_compute. reflexivity.
  - by vm_compute.
  - by vm_compute.
Defined.

(** ** Editing a definition that does not exist *)

(** X6. [update_table] creates nothing: for an identifier without catalog
    row the call raises, whatever the engine does, and the file stays as
    it was; when the engine does not fail and the catalog is there, the
    exception is the [TypeError] of subscripting the missing row. *)
Theorem update_table_unknown_id :
  ∀ (tid name : string) (cols dcols : list string) (s : storage),
    (∀ old, Sql.select_columns tid (file s) ≠ inr (Some old)) →
    (∃ e, (update_table tid name cols dcols s).1 = inl e)
    ∧ file (update_table tid name cols dcols s).2 = file s
    ∧ (failures s = [] → Sql.select_columns tid (file s) = inr None →
       (update_table tid name cols dcols s).1 = inl TypeError).
Proof.
  intros tid name cols dcols s Hnone.
  assert (Herr : ∃ e, (update_table tid name cols dcols s).1 = inl e).
  { destruct (update_table tid name cols dcols s) as [[e|b] s'] eqn:Hrun; [by exists e|].
    apply update_table_inr in Hrun as (old & _ & Hold & _). by destruct (Hnone old). }
  split; [done|]. split.
  - destruct Herr as [e He].
    destruct (update_table tid name cols dcols s) as [r s'] eqn:Hrun.
    simpl in *. subst r. by eapply update_table_rollback.
  - intros Hfail Hsel. destruct s as [db fl]. cbn [file failures] in *. subst fl.
    unfold update_table, with_connection, try_rollback. cbn [file failures].
    erewrite bind_run; [|by apply query_run]. reflexivity.
Qed.

Lemma update_table_unknown_id_witness :
  let call := update_table "cellar" "Cellar" ["item"] ["Item"] (Storage Sample.fridge_db []) in
  call.1 = inl TypeError ∧ file call.2 = Sample.fridge_db.
Proof.
  intros call.
  destruct (update_table_unknown_id "cellar" "Cellar" ["item"] ["Item"]
              (Storage Sample.fridge_db [])) as (_ & Hfile & Herr).
  - intros old H. vm_compute in H. discriminate.
  - split; [|exact Hfile]. apply Herr; [done|by vm_compute].
Defined.

(** ** Reordering *)

Lemma reordered_nil rs : reordered [] rs = rs.
Proof.
  unfold reordered. induction rs as [|r rs IH]; [done|].
  cbn [map]. f_equal; [by destruct r | exact IH].
Qed.

Lemma reordered_cons t n orders rs :
  reordered orders
    (map (fun r => if String.eqb (table_id r) t
                   then TableSetting (table_id r) (table_name r) (columns r)
                          (display_columns r) n
                   else r) rs)
  = reordered ((t, n) :: orders) rs.
Proof.
  unfold reordered. rewrite map_map. apply map_ext. intros r.
  unfold final_rank. cbn [foldl fst snd].
  destruct (String.eqb_spec (table_id r) t) as [Heq|Hne]; cbn.
  - by rewrite decide_True.
  - by rewrite decide_False by (by intros ?).
Qed.

Lemma reordered_ids orders rs : table_id <$> reordered orders rs = table_id <$> rs.
Proof. unfold reordered. rewrite <- list_fmap_compose. done. Qed.

(** The loop of [update_table_order], when it gets through. *)
Lemma reorder_loop_inr orders c u c' rs :
  for_each orders (λ '(tid, new_order),
      execute true (Sql.update_display_order new_order tid)) c = (inr u, c') →
  view c !! settings_name = Some (Catalog rs) →
  view c' = Sql.put_settings (reordered orders rs) (view c)
  ∧ Forall (λ p, Sql.fits_integer p.2 = true) orders.
Proof.
  revert c rs. induction orders as [|[t n] orders IH]; intros c rs Hrun Hcat.
  - apply ret_inr in Hrun as [_ ->]. split; [|done].
    rewrite reordered_nil. unfold Sql.put_settings. by rewrite insert_id.
  - cbn [for_each] in Hrun.
    apply bind_inr in Hrun as (? & c1 & Hupd & Hrun). apply execute_inr in Hupd.
    unfold Sql.update_display_order, Sql.settings_of in Hupd. rewrite Hcat in Hupd.
    destruct (Sql.fits_integer n) eqn:Hfit; [|done]. cbn [negb] in Hupd.
    injection Hupd as Hupd.
    edestruct (IH c1) as [Hview Hall]; [exact Hrun| |].
    { rewrite <- Hupd. apply lookup_insert_eq. }
    split; [|by constructor].
    rewrite Hview, <- Hupd, reordered_cons. unfold Sql.put_settings.
    by rewrite insert_insert_eq.
Qed.

Lemma update_table_order_inr orders s b s' rs :
  update_table_order orders s = (inr b, s') →
  file s !! settings_name = Some (Catalog rs) →
  file s' = Sql.put_settings (reordered orders rs) (file s)
  ∧ Forall (λ p, Sql.fits_integer p.2 = true) orders.
Proof.
  intros H Hcat. apply with_connection_inr in H as (c' & H & ->).
  apply bind_inr in H as (? & c1 & Hloop & H).
  apply bind_inr in H as (? & c2 & Hcom & H). apply commit_inr in Hcom.
  apply ret_inr in H as [_ ->]. rewrite Hcom.
  by apply (reorder_loop_inr _ _ _ _ rs) in Hloop.
Qed.

(** X7. What a returning [update_table_order] leaves: the catalog rows in
    the same places with the same identifier, name, columns and labels;
    the rank of each row is the last rank the request gives for its
    identifier, or the rank it had when the request does not name it;
    identifiers the catalog does not hold have no effect; and no data table
    changes. *)
Theorem update_table_order_sets_ranks :
  ∀ (table_orders : list (string * Z)) (s s' : storage) (b : bool)
    (rs : list table_setting),
    update_table_order table_orders s = (inr b, s') →
    file s !! settings_name = Some (Catalog rs) →
    file s' !! settings_name = Some (Catalog (reordered table_orders rs))
    ∧ (∀ n, n ≠ settings_name → file s' !! n = file s !! n)
    ∧ (∀ i r, rs !! i = Some r →
         ∃ r', reordered table_orders rs !! i = Some r'
           ∧ table_id r' = table_id r ∧ table_name r' = table_name r
           ∧ columns r' = columns r ∧ display_columns r' = display_columns r
           ∧ display_order r' = final_rank table_orders (table_id r) (display_order r))
    ∧ (∀ r, r ∈ rs → table_id r ∉ table_orders.*1 →
         final_rank table_orders (table_id r) (display_order r) = display_order r).
Proof.
  intros orders s s' b rs Hrun Hcat.
  destruct (update_table_order_inr _ _ _ _ _ Hrun Hcat) as [-> _].
  unfold Sql.put_settings. split; [apply lookup_insert_eq|].
  split; [by intros n Hn; rewrite lookup_insert_ne|]. split.
  - intros i r Hi. eexists. split.
    + unfold reordered. rewrite list_lookup_fmap, Hi. reflexivity.
    + done.
  - intros r _. clear. generalize (display_order r). unfold final_rank.
    induction orders as [|[t n] orders IH]; intros rank Hnot; [reflexivity|].
    cbn [foldl fst snd fmap list_fmap] in *. apply not_elem_of_cons in Hnot as [Hne Hnot].
    rewrite decide_False by (by intros ?). by apply IH.
Qed.

Lemma update_table_order_sets_ranks_witness :
  let call := update_table_order [("fridge", 5); ("cellar", 7); ("fridge", 3)]
                (Storage Sample.fridge_db []) in
  Sql.select_display_order "fridge" (file call.2) = inr (Some 3)
  ∧ Sql.select_display_order "pantry" (file call.2) = inr (Some 0)
  ∧ file call.2 !! "fridge" = Sample.fridge_db !! "fridge".
Proof.
  intros call.
  destruct (update_table_order_sets_ranks [("fridge", 5); ("cellar", 7); ("fridge", 3)]
              (Storage Sample.fridge_db []) call.2 true
              [ TableSetting "pantry" "Pantry" ["item"; "dateofpurchase"; "amount"]
                  ["Item"; "Date of Purchase"; "Amount"] 0;
                TableSetting "fridge" "Fridge" ["item"; "amount"] ["Item"; "Amount"] 1 ])
    as (Hcat & Hframe & _ & _).
  - by vm_compute.
  - by vm_compute.
  - unfold Sql.select_display_order, Sql.settings_of. rewrite Hcat.
    split; [by vm_compute|]. split; [by vm_compute|]. by apply Hframe.
Defined.

(** X8. [update_table_order] is all-or-nothing as well: when it raises,
    after whatever number of ranks already written, the file is as it was;
    and it raises, for every engine, as soon as one rank of the request
    does not fit SQLite's 64-bit INTEGER. *)
Theorem update_table_order_all_or_nothing :
  ∀ (table_orders : list (string * Z)) (s : storage),
    (∀ e s', update_table_order table_orders s = (inl e, s') → file s' = file s)
    ∧ (∀ rs, file s !! settings_name = Some (Catalog rs) →
         Exists (λ p, Sql.fits_integer p.2 = false) table_orders →
         ∃ e, (update_table_order table_orders s).1 = inl e
              ∧ file (update_table_order table_orders s).2 = file s).
Proof.
  intros orders s. split; [intros e s'; apply update_table_order_rollback|].
  intros rs Hcat Hbad.
  destruct (update_table_order orders s) as [[e|b] s'] eqn:Hrun.
  - exists e. split; [done|]. by eapply update_table_order_rollback.
  - exfalso. destruct (update_table_order_inr _ _ _ _ _ Hrun Hcat) as [_ Hall].
    apply Exists_exists in Hbad as (p & Hp & Hbad).
    rewrite Forall_forall in Hall. specialize (Hall p Hp). congruence.
Qed.

Lemma update_table_order_all_or_nothing_witness :
  let call := update_table_order [("fridge", 0); ("pantry", 2 ^ 63)]
                (Storage Sample.fridge_db []) in
  call.1 = inl OverflowError ∧ file call.2 = Sample.fridge_db.
Proof.
  intros call. split; [by vm_compute|].
  destruct (update_table_order_all_or_nothing [("fridge", 0); ("pantry", 2 ^ 63)]
              (Storage Sample.fridge_db [])) as [Hroll _].
  apply (Hroll OverflowError call.2). by vm_compute.
Defined.

(** ** The primary key of the catalog *)

Lemma insert_select_inr dst cols src (db db' : database) :
  Sql.insert_select dst cols src db = inr db' → ∃ t, db' = <[dst := Data t]> db.
Proof.
  unfold Sql.insert_select.
  destruct (db !! dst) as [[?|td]|]; destruct (db !! src) as [[?|ts]|]; try done.
  case_bool_decide; [|done]. intros [= <-]. eauto.
Qed.

(** The catalog after a returning [update_table]: its rows with the one of
    the table rewritten; or no catalog at all, when the identifier is the
    one of the catalog and the migration replaced it by a data table. *)
Lemma update_table_catalog_after tid name cols dcols s b s' :
  update_table tid name cols dcols s = (inr b, s') →
  ∃ rs, file s !! settings_name = Some (Catalog rs)
    ∧ (file s' !! settings_name = Some (Catalog (updated_settings tid name cols dcols rs))
       ∨ ∃ t, file s' !! settings_name = Some (Data t)).
Proof.
  intros Hrun. apply update_table_inr in Hrun as (old & db1 & Hold & Hupd & Hmig).
  apply select_columns_inr in Hold as (rs & r & Hcat & _ & _).
  apply (update_setting_inr _ _ _ _ _ _ _ Hcat) in Hupd.
  exists rs. split; [done|].
  assert (Hc1 : db1 !! settings_name
                = Some (Catalog (updated_settings tid name cols dcols rs))).
  { subst db1. apply lookup_insert_eq. }
  case_bool_decide; [|left; by rewrite Hmig].
  destruct Hmig as (db2 & db3 & db4 & Hcre & Hcopy & Hdrop & Hren).
  apply create_table_stmt_inr in Hcre as (_ & _ & Hfresh & ->).
  assert (Htemp : tid +:+ "_temp" ≠ settings_name) by (intros Heq; congruence).
  assert (∃ t, db3 = <[tid +:+ "_temp" := Data t]> db1) as [t ->].
  { case_bool_decide.
    - apply insert_select_inr in Hcopy as [t ->]. exists t. by rewrite insert_insert_eq.
    - subst db3. eauto. }
  unfold Sql.drop_table in Hdrop. destruct (_ !! tid); [|done]. injection Hdrop as <-.
  unfold Sql.rename_table in Hren.
  destruct (decide (tid = tid +:+ "_temp")) as [Heq|Hne].
  { by rewrite <- Heq, lookup_delete_eq in Hren. }
  rewrite lookup_delete_ne, lookup_insert_eq in Hren by done.
  destruct (_ !! tid); [done|]. injection Hren as <-.
  destruct (decide (tid = settings_name)) as [->|Hts].
  - right. exists t. apply lookup_insert_eq.
  - left. by rewrite lookup_insert_ne, !lookup_delete_ne, lookup_insert_ne.
Qed.

Lemma updated_settings_ids tid name cols dcols rs :
  table_id <$> updated_settings tid name cols dcols rs = table_id <$> rs.
Proof.
  unfold updated_settings. induction rs as [|r rs IH]; [done|].
  cbn [map fmap list_fmap] in *. rewrite IH. by destruct (String.eqb _ _).
Qed.

Lemma NoDup_other_ids tid (rs : list table_setting) :
  NoDup (table_id <$> rs) → NoDup (table_id <$> filter (λ r, table_id r ≠ tid) rs).
Proof.
  induction rs as [|r rs IH]; [done|]. cbn [fmap list_fmap].
  rewrite NoDup_cons. intros [Hnot Hnd].
  destruct (decide (table_id r ≠ tid)).
  - rewrite filter_cons_True by done. cbn [fmap list_fmap]. apply NoDup_cons.
    split; [|by apply IH]. intros Hin. apply Hnot.
    apply list_elem_of_fmap in Hin as (r' & -> & Hr').
    apply list_elem_of_filter in Hr' as [_ Hr']. by apply list_elem_of_fmap_2.
  - rewrite filter_cons_False by done. by apply IH.
Qed.

(** A returning [update_table_order] on a file without catalog had nothing
    to do. *)
Lemma update_table_order_inr_no_catalog orders s b s' :
  update_table_order orders s = (inr b, s') →
  (∀ rs, file s !! settings_name ≠ Some (Catalog rs)) →
  file s' = file s.
Proof.
  intros H Hno. apply with_connection_inr in H as (c' & H & ->).
  apply bind_inr in H as (? & c1 & Hloop & H).
  apply bind_inr in H as (? & c2 & Hcom & H). apply commit_inr in Hcom.
  apply ret_inr in H as [_ ->]. rewrite Hcom.
  destruct orders as [|[t n] orders].
  - by apply ret_inr in Hloop as [_ ->].
  - cbn [for_each] in Hloop. apply bind_inr in Hloop as (? & c3 & Hupd & _).
    apply execute_inr in Hupd. cbn [view] in Hupd.
    unfold Sql.update_display_order in Hupd. destruct (negb _); [done|].
    destruct (Sql.settings_of (file s)) as [|rs] eqn:Hcat; [done|].
    apply settings_of_inr in Hcat. by destruct (Hno rs).
Qed.

(** X9. The primary key of the catalog is kept: when no two catalog rows
    share an identifier before [create_table], [update_table],
    [delete_table] or [update_table_order], none do after the call,
    whether it returned or raised. *)
Theorem schema_mutations_keep_ids_unique :
  ∀ (tid name : string) (cols dcols : list string) (table_orders : list (string * Z))
    (s : storage),
    unique_ids (file s) →
    unique_ids (file (create_table tid name cols dcols s).2)
    ∧ unique_ids (file (update_table tid name cols dcols s).2)
    ∧ unique_ids (file (delete_table tid s).2)
    ∧ unique_ids (file (update_table_order table_orders s).2).
Proof.
  intros tid name cols dcols orders s Huniq. split; [|split; [|split]].
  - destruct (create_table tid name cols dcols s) as [[e|b] s'] eqn:Hrun; cbn [snd].
    { by rewrite (create_table_rollback _ _ _ _ _ _ _ Hrun). }
    pose proof (create_table_inr_free _ _ _ _ _ _ _ Hrun) as (rs & Hcat & Hfind & Hfree & _).
    apply create_table_appends in Hrun as (rs' & Hcat' & ->).
    rewrite Hcat in Hcat'. injection Hcat' as <-.
    assert (Hne : tid ≠ settings_name) by (intros ->; congruence).
    intros rs'. unfold Sql.put_settings.
    rewrite lookup_insert_ne, lookup_insert_eq by done. intros [= <-].
    rewrite fmap_app. apply NoDup_app. split; [by apply Huniq|]. split.
    + intros x Hx Hx'. apply list_elem_of_singleton in Hx'. cbn in Hx'. subst x.
      by apply find_setting_None in Hfind.
    + apply NoDup_singleton.
  - destruct (update_table tid name cols dcols s) as [[e|b] s'] eqn:Hrun; cbn [snd].
    { by rewrite (update_table_rollback _ _ _ _ _ _ _ Hrun). }
    apply update_table_catalog_after in Hrun as (rs & Hcat & [Hafter|[t Hafter]]);
      intros rs'; rewrite Hafter; [|done].
    intros [= <-]. rewrite updated_settings_ids. by apply Huniq.
  - destruct (delete_table tid s) as [[e|b] s'] eqn:Hrun; cbn [snd].
    { by rewrite (delete_table_rollback _ _ _ _ Hrun). }
    apply delete_table_inr in Hrun as (rs & Hcat & ->). intros rs'.
    destruct (decide (tid = settings_name)) as [->|Hne].
    { by rewrite lookup_delete_eq. }
    unfold Sql.put_settings. rewrite lookup_delete_ne, lookup_insert_eq by done.
    intros [= <-]. rewrite filter_other_ids. by apply NoDup_other_ids, Huniq.
  - destruct (update_table_order orders s) as [[e|b] s'] eqn:Hrun; cbn [snd].
    { by rewrite (update_table_order_rollback _ _ _ _ Hrun). }
    destruct (file s !! settings_name) as [[rs|t]|] eqn:Hcat.
    + destruct (update_table_order_inr _ _ _ _ _ Hrun Hcat) as [-> _].
      intros rs'. unfold Sql.put_settings. rewrite lookup_insert_eq. intros [= <-].
      rewrite reordered_ids. by apply Huniq.
    + rewrite (update_table_order_inr_no_catalog _ _ _ _ Hrun); [done|].
      intros rs. by rewrite Hcat.
    + rewrite (update_table_order_inr_no_catalog _ _ _ _ Hrun); [done|].
      intros rs. by rewrite Hcat.
Qed.

Lemma schema_mutations_keep_ids_unique_witness :
  unique_ids (file (create_table "cellar" "Cellar" ["item"] ["Item"]
                      (Storage Sample.fridge_db [])).2).
Proof.
  apply (schema_mutations_keep_ids_unique "cellar" "Cellar" ["item"] ["Item"] []
           (Storage Sample.fridge_db [])).
  intros rs Hrs. vm_compute in Hrs. injection Hrs as <-. by_compute.
Defined.

(** ** Pantry first *)

Lemma final_rank_not_named orders tid rank :
  tid ∉ orders.*1 → final_rank orders tid rank = rank.
Proof.
  unfold final_rank. revert rank.
  induction orders as [|[t n] orders IH]; intros rank Hnot; [reflexivity|].
  cbn [foldl fst snd fmap list_fmap] in *. apply not_elem_of_cons in Hnot as [Hne Hnot].
  rewrite decide_False by (by intros ?). by apply IH.
Qed.

Lemma final_rank_bound lo orders tid rank :
  Forall (λ p, lo ≤ p.2) orders →
  lo ≤ rank ∨ tid ∈ orders.*1 →
  lo ≤ final_rank orders tid rank.
Proof.
  unfold final_rank. revert rank.
  induction orders as [|[t n] orders IH]; intros rank Hall Hor.
  - destruct Hor as [?|Hin]; [done|]. by apply elem_of_nil in Hin.
  - apply Forall_cons in Hall as [Hn Hall]. cbn [foldl fst snd] in *.
    apply IH; [done|]. destruct (decide (t = tid)) as [->|Hne]; [by left|].
    destruct Hor as [?|Hin]; [by left|]. right.
    cbn [fmap list_fmap fst] in Hin. apply elem_of_cons in Hin as [?|?]; [congruence|done].
Qed.

Lemma renumbering_names start tables tid :
  tid ∈ (renumbering start tables).*1 ↔ tid ≠ "pantry" ∧ tid ∈ tables.*1.
Proof.
  revert start. induction tables as [|[t k] tables IH]; intros start; cbn [renumbering].
  - cbn. rewrite elem_of_nil. tauto.
  - cbn [fmap list_fmap fst]. rewrite elem_of_cons. case_bool_decide as Ht.
    + cbn [fmap list_fmap fst]. rewrite elem_of_cons, IH.
      split; [intros [->|[? ?]]; tauto|tauto].
    + subst t. rewrite IH.
      split; [tauto|]. intros [Hne [?|?]]; [congruence|tauto].
Qed.

Lemma renumbering_lower start tables :
  Forall (λ p, start ≤ p.2) (renumbering start tables).
Proof.
  revert start. induction tables as [|[t k] tables IH]; intros start; cbn [renumbering].
  - constructor.
  - case_bool_decide; [|done]. constructor; [cbn; lia|].
    eapply Forall_impl; [apply IH|]. cbn. intros p ?. lia.
Qed.

Lemma renumbering_fits start tables :
  0 ≤ start → start + Z.of_nat (length tables) ≤ 2 ^ 63 →
  Forall (λ p, Sql.fits_integer p.2 = true) (renumbering start tables).
Proof.
  revert start. induction tables as [|[t k] tables IH]; intros start H0 Hlen;
    cbn [renumbering length] in *.
  - constructor.
  - case_bool_decide.
    + constructor; [|apply IH; lia]. cbn. unfold Sql.fits_integer.
      apply andb_true_intro. split; [apply Z.leb_le|apply Z.ltb_lt]; lia.
    + apply IH; lia.
Qed.

(** The loop of [ensure_pantry_first] is the loop of [update_table_order]
    on the ranks it writes. *)
Lemma renumber_others_for_each start tables c :
  renumber_others start tables c =
  for_each (renumbering start tables) (λ '(tid, new_order),
      execute true (Sql.update_display_order new_order tid)) c.
Proof.
  revert start c. induction tables as [|[t k] tables IH]; intros start c;
    cbn [renumber_others renumbering]; [done|].
  case_bool_decide; [|apply IH]. cbn [for_each]. unfold mbind, M_bind.
  destruct (execute _ _ c) as [[e|u] c1]; [done|]. apply IH.
Qed.

(** The body of [ensure_pantry_first] keeps the disk until its commit. *)
Lemma ensure_pantry_first_body_keeps db0 :
  triple (unchanged db0)
    (pantry_result ← query (Sql.select_display_order "pantry");
     match pantry_result with
     | Some pantry_order =>
         if bool_decide (pantry_order ≠ 0) then
           tables ← query Sql.select_by_order;
           execute true (Sql.update_display_order 0 "pantry");;
           renumber_others 1 tables;;
           commit
         else mret ()
     | None => mret ()
     end)
    (λ _ _, True) (on_disk db0).
Proof.
  eapply triple_bind; [apply triple_query|]. intros [p|]; [|by apply triple_ret].
  case_bool_decide; [|by apply triple_ret].
  eapply triple_bind; [apply triple_query|]. intros tables.
  eapply triple_bind; [apply triple_dml|]. intros ?.
  eapply triple_bind with (Q := λ _, unchanged db0); [|intros ?; apply triple_commit].
  intros c Hc. rewrite renumber_others_for_each. revert c Hc.
  eapply triple_weaken; [apply in_txn_unchanged|].
  apply triple_for_each. intros [t n]. apply triple_dml.
Qed.

Lemma query_inr_disk {A} (q : database → result A) c a c' :
  query q c = (inr a, c') → disk c' = disk c.
Proof.
  unfold query. destruct (next_failure_spec c) as (b & s & ->).
  destruct b; [done|]. cbn [view]. destruct (q (view c)); [done|].
  intros Heq. by simplify_eq/=.
Qed.

(** What [ensure_pantry_first] does, case by case. *)
Lemma ensure_pantry_first_cases s :
  (ensure_pantry_first s).1 = inr ()
  ∧ (file (ensure_pantry_first s).2 = file s
     ∨ ∃ rs p,
         file s !! settings_name = Some (Catalog rs)
         ∧ Sql.select_display_order "pantry" (file s) = inr (Some p) ∧ p ≠ 0
         ∧ file (ensure_pantry_first s).2
           = Sql.put_settings
               (reordered (("pantry", 0) ::
                           renumbering 1 ((λ r, (table_id r, display_order r)) <$>
                                            Sql.sort_by_order rs)) rs)
               (file s)).
Proof.
  unfold ensure_pantry_first, with_connection, try_print.
  pose proof (ensure_pantry_first_body_keeps (file s)
                (Connection (file s) (file s) false (failures s))) as Hkeep.
  match goal with |- context [match ?b ?c with _ => _ end]
    => destruct (b c) as [[e|[]] c'] eqn:Hrun end; cbn [fst snd file].
  { split; [done|]. left. apply Hkeep. by split. }
  split; [done|]. clear Hkeep.
  apply bind_inr in Hrun as (pantry & c1 & Hq & Hrun).
  pose proof (query_inr_disk _ _ _ _ Hq) as Hd1. apply query_inr in Hq as [Hq Hv1].
  cbn [view disk] in *.
  destruct pantry as [p|]; [|apply ret_inr in Hrun as [_ ->]; by left].
  case_bool_decide as Hp; [|apply ret_inr in Hrun as [_ ->]; by left].
  right.
  apply bind_inr in Hrun as (tables & c2 & Hq2 & Hrun). apply query_inr in Hq2 as [Hq2 Hv2].
  unfold Sql.select_by_order in Hq2.
  destruct (Sql.settings_of (view c1)) as [|rs] eqn:Hcat; [done|].
  apply settings_of_inr in Hcat. injection Hq2 as <-.
  apply bind_inr in Hrun as (? & c3 & Hupd & Hrun).
  apply bind_inr in Hrun as (? & c4 & Hren & Hcom). apply commit_inr in Hcom.
  rewrite renumber_others_for_each in Hren.
  assert (Hall : for_each
            (("pantry", 0) :: renumbering 1 ((λ r, (table_id r, display_order r)) <$>
                                                Sql.sort_by_order rs))
            (λ '(tid, new_order), execute true (Sql.update_display_order new_order tid)) c2
          = (inr (), c4)).
  { cbn [for_each]. unfold mbind, M_bind. rewrite Hupd. destruct x, x0. exact Hren. }
  apply (reorder_loop_inr _ _ _ _ rs) in Hall as [Hview _]; [|by rewrite Hv2].
  exists rs, p. rewrite Hv1 in Hcat. split; [done|].
  split; [done|]. split; [done|].
  by rewrite Hcom, Hview, Hv2, Hv1.
Qed.

Lemma reordered_same_but_rank orders rs :
  Forall2 same_but_rank rs (reordered orders rs).
Proof.
  unfold reordered. induction rs as [|r rs IH]; cbn [map]; constructor; [|done].
  by repeat split.
Qed.

Lemma same_but_rank_refl rs : Forall2 same_but_rank rs rs.
Proof. induction rs; constructor; [by repeat split|done]. Qed.

Lemma insert_by_order_Permutation r rs : Sql.insert_by_order r rs ≡ₚ r :: rs.
Proof.
  induction rs as [|r' rs IH]; [done|]. cbn [Sql.insert_by_order].
  destruct (decide (Sql.order_le r r')); [done|].
  rewrite IH. apply Permutation_swap.
Qed.

Lemma sort_by_order_Permutation rs : Sql.sort_by_order rs ≡ₚ rs.
Proof.
  unfold Sql.sort_by_order. induction rs as [|r rs IH]; [done|].
  cbn [foldr]. by rewrite insert_by_order_Permutation, IH.
Qed.

Lemma sorted_ids (rs : list table_setting) :
  ((λ r, (table_id r, display_order r)) <$> Sql.sort_by_order rs).*1
  ≡ₚ table_id <$> rs.
Proof.
  rewrite <- list_fmap_compose. rewrite (sort_by_order_Permutation rs). done.
Qed.

(** The ranks after the renumbering of [ensure_pantry_first]. *)
Lemma pantry_renumbering_ranks rs r' :
  r' ∈ reordered (("pantry", 0) ::
                  renumbering 1 ((λ r, (table_id r, display_order r)) <$>
                                   Sql.sort_by_order rs)) rs →
  if decide (table_id r' = "pantry") then display_order r' = 0 else 1 ≤ display_order r'.
Proof.
  unfold reordered. intros Hin. apply list_elem_of_fmap in Hin as (r & -> & Hr).
  cbn [table_id display_order]. unfold final_rank. cbn [foldl fst snd].
  fold (final_rank (renumbering 1 ((λ r, (table_id r, display_order r)) <$>
                                     Sql.sort_by_order rs)) (table_id r)).
  destruct (decide (table_id r = "pantry")) as [Heq|Hne].
  - rewrite Heq, decide_True by done. apply final_rank_not_named.
    rewrite renumbering_names. tauto.
  - rewrite decide_False by (by intros ?). apply final_rank_bound.
    + apply renumbering_lower.
    + right. apply renumbering_names. split; [done|].
      rewrite sorted_ids. by apply list_elem_of_fmap_2.
Qed.

(** X10. [ensure_pantry_first] never raises and never touches a data
    table; the catalog rows keep their place, identifier, name, columns and
    labels.  Either the catalog is left as it was, or every row named
    [pantry] has rank 0 and every other row a rank of at least 1.  When
    there is no [pantry] row, or the first one has rank 0 already, the
    file is left as it was. *)
Theorem ensure_pantry_first_effect :
  ∀ s : storage,
    (ensure_pantry_first s).1 = inr ()
    ∧ (∀ n, n ≠ settings_name →
         file (ensure_pantry_first s).2 !! n = file s !! n)
    ∧ (∀ rs, file s !! settings_name = Some (Catalog rs) →
         ∃ rs', file (ensure_pantry_first s).2 !! settings_name = Some (Catalog rs')
           ∧ Forall2 same_but_rank rs rs'
           ∧ (rs' = rs
              ∨ ∀ r', r' ∈ rs' →
                  if decide (table_id r' = "pantry") then display_order r' = 0
                  else 1 ≤ display_order r'))
    ∧ ((∀ p, Sql.select_display_order "pantry" (file s) = inr (Some p) → p = 0) →
       file (ensure_pantry_first s).2 = file s).
Proof.
  intros s. destruct (ensure_pantry_first_cases s) as [Hret Hcases].
  split; [done|]. split; [|split].
  - intros n Hn. destruct Hcases as [->|(rs & p & _ & _ & _ & ->)]; [done|].
    unfold Sql.put_settings. by rewrite lookup_insert_ne.
  - intros rs Hcat. destruct Hcases as [->|(rs0 & p & Hcat0 & _ & _ & ->)].
    + exists rs. split; [done|]. split; [apply same_but_rank_refl|by left].
    + rewrite Hcat in Hcat0. injection Hcat0 as <-.
      eexists. split; [apply lookup_insert_eq|].
      split; [apply reordered_same_but_rank|]. right.
      intros r'. apply pantry_renumbering_ranks.
  - intros Hzero. destruct Hcases as [->|(rs & p & _ & Hp & Hne & _)]; [done|].
    by destruct (Hne (Hzero p Hp)).
Qed.

Lemma ensure_pantry_first_effect_witness :
  let s := (update_table_order [("pantry", 2); ("fridge", 0)]
              (Storage Sample.fridge_db [])).2 in
  file (ensure_pantry_first s).2 !! "fridge" = Sample.fridge_db !! "fridge"
  ∧ Sql.select_display_order "pantry" (file (ensure_pantry_first s).2) = inr (Some 0).
Proof.
  intros s. destruct (ensure_pantry_first_effect s) as (_ & Hframe & _ & _).
  split; [|by vm_compute]. rewrite Hframe by done. by vm_compute.
Defined.

(** The loop of [update_table_order] on an engine that does not fail,
    inside a transaction. *)
Lemma reorder_loop_run orders d v rs :
  Forall (λ p, Sql.fits_integer p.2 = true) orders →
  v !! settings_name = Some (Catalog rs) →
  for_each orders (λ '(tid, new_order),
      execute true (Sql.update_display_order new_order tid)) (Connection d v true [])
  = (inr (), Connection d (Sql.put_settings (reordered orders rs) v) true []).
Proof.
  revert v rs. induction orders as [|[tid n] orders IH]; intros v rs Hall Hcat.
  - cbn [for_each]. rewrite reordered_nil. unfold Sql.put_settings.
    by rewrite insert_id.
  - apply Forall_cons in Hall as [Hn Hall]. cbn [snd] in Hn. cbn [for_each].
    erewrite bind_run; cycle 1.
    { apply execute_dml_run. unfold Sql.update_display_order, Sql.settings_of.
      rewrite Hn, Hcat. reflexivity. }
    erewrite IH; [|done|apply lookup_insert_eq].
    rewrite reordered_cons. unfold Sql.put_settings. by rewrite insert_insert_eq.
Qed.

Lemma find_setting_reordered orders tid rs :
  display_order <$> Sql.find_setting tid (reordered orders rs)
  = (λ r, final_rank orders tid (display_order r)) <$> Sql.find_setting tid rs.
Proof.
  unfold Sql.find_setting, reordered. induction rs as [|r rs IH]; [done|].
  cbn [map find table_id]. destruct (String.eqb_spec (table_id r) tid) as [->|Hne]; [done|].
  apply IH.
Qed.

(** [ensure_pantry_first] on an engine that does not fail. *)
Lemma ensure_pantry_first_run db rs p :
  db !! settings_name = Some (Catalog rs) →
  Sql.select_display_order "pantry" db = inr (Some p) →
  p ≠ 0 →
  Z.of_nat (length rs) < 2 ^ 63 - 1 →
  ensure_pantry_first (Storage db [])
  = (inr (), Storage
       (Sql.put_settings
          (reordered (("pantry", 0) ::
                      renumbering 1 ((λ r, (table_id r, display_order r)) <$>
                                       Sql.sort_by_order rs)) rs) db) []).
Proof.
  intros Hcat Hsel Hp Hlen.
  unfold ensure_pantry_first, with_connection, try_print. cbn [file failures].
  erewrite bind_run; [|by apply query_run]. cbv beta iota.
  rewrite bool_decide_eq_true_2 by done.
  erewrite bind_run; cycle 1.
  { apply query_run. unfold Sql.select_by_order, Sql.settings_of. rewrite Hcat. reflexivity. }
  erewrite bind_run; cycle 1.
  { apply execute_dml_run. unfold Sql.update_display_order, Sql.settings_of.
    rewrite Hcat. reflexivity. }
  erewrite bind_run; cycle 1.
  { rewrite renumber_others_for_each. apply reorder_loop_run; [|apply lookup_insert_eq].
    apply renumbering_fits; [done|].
    rewrite length_fmap, (Permutation_length (sort_by_order_Permutation rs)). lia. }
  rewrite commit_run. cbn [disk schedule fst snd].
  rewrite reordered_cons. unfold Sql.put_settings. by rewrite insert_insert_eq.
Qed.

(** X11. On an engine that does not fail, with a catalog of fewer than
    2^63 - 1 rows that has a [pantry] row, [ensure_pantry_first] leaves
    [pantry] at rank 0. *)
Theorem ensure_pantry_first_restores :
  ∀ (db : database) (rs : list table_setting),
    db !! settings_name = Some (Catalog rs) →
    "pantry" ∈ table_id <$> rs →
    Z.of_nat (length rs) < 2 ^ 63 - 1 →
    Sql.select_display_order "pantry" (file (ensure_pantry_first (Storage db [])).2)
    = inr (Some 0).
Proof.
  intros db rs Hcat Hin Hlen.
  destruct (Sql.find_setting "pantry" rs) as [r|] eqn:Hfind; cycle 1.
  { by apply find_setting_None in Hfind. }
  assert (Hsel : Sql.select_display_order "pantry" db = inr (Some (display_order r))).
  { unfold Sql.select_display_order, Sql.settings_of. by rewrite Hcat, Hfind. }
  destruct (decide (display_order r = 0)) as [Hz|Hnz].
  - destruct (ensure_pantry_first_cases (Storage db []))
      as [_ [->|(rs' & p & _ & Hp & Hne & _)]].
    + cbn [file]. by rewrite Hsel, Hz.
    + cbn [file] in Hp. rewrite Hsel in Hp. injection Hp as <-. done.
  - rewrite (ensure_pantry_first_run db rs _ Hcat Hsel Hnz Hlen). cbn [snd file].
    unfold Sql.select_display_order, Sql.settings_of, Sql.put_settings.
    rewrite lookup_insert_eq, find_setting_reordered, Hfind.
    cbn [fmap option_fmap option_map]. do 2 f_equal.
    unfold final_rank. cbn [foldl fst snd]. rewrite decide_True by done.
    apply final_rank_not_named. rewrite renumbering_names. tauto.
Qed.

Lemma ensure_pantry_first_restores_witness :
  Sql.select_display_order "pantry"
    (file (ensure_pantry_first
             (update_table_order [("pantry", 2); ("fridge", 0)]
                (Storage Sample.fridge_db [])).2).2)
  = inr (Some 0).
Proof.
  apply (ensure_pantry_first_restores
           (file (update_table_order [("pantry", 2); ("fridge", 0)]
                    (Storage Sample.fridge_db [])).2)
           [ TableSetting "pantry" "Pantry" ["item"; "dateofpurchase"; "amount"]
               ["Item"; "Date of Purchase"; "Amount"] 2;
             TableSetting "fridge" "Fridge" ["item"; "amount"] ["Item"; "Amount"] 0 ]).
  - by vm_compute.
  - by_compute.
  - by vm_compute.
Defined.

(** ** The listing *)

Lemma order_id_le_total : Total Sql.order_id_le.
Proof.
  intros a b. unfold Sql.order_id_le.
  destruct (Z.lt_trichotomy (display_order a) (display_order b)) as [?|[Heq|?]];
    [by left; left| |by right; left].
  destruct (total String.le (table_id a) (table_id b)); [left|right]; right; by split.
Qed.

Lemma order_id_le_trans : Transitive Sql.order_id_le.
Proof.
  intros a b c. unfold Sql.order_id_le.
  intros [?|[? Hab]] [?|[? Hbc]]; try (left; lia).
  right. split; [lia|]. by etrans.
Qed.

Lemma get_tables_config_inr s s' tables :
  get_tables_config s = (inr tables, s') →
  ∃ rs, file s' !! settings_name = Some (Catalog rs)
    ∧ file s' = file s
    ∧ tables ≡ₚ rs
    ∧ StronglySorted Sql.order_id_le tables.
Proof.
  intros Hrun. unfold get_tables_config, with_connection in Hrun.
  destruct (query _ _) as [r c] eqn:Hq. injection Hrun as -> <-.
  pose proof (query_inr_disk _ _ _ _ Hq) as Hd. apply query_inr in Hq as [Hq _].
  cbn [view disk file] in *.
  unfold Sql.select_all_ordered in Hq.
  destruct (Sql.settings_of (file s)) as [|rs] eqn:Hcat; [done|].
  apply settings_of_inr in Hcat. injection Hq as <-. exists rs. rewrite Hd.
  split; [done|]. split; [done|]. split; [apply merge_sort_Permutation|].
  apply (@StronglySorted_merge_sort _ Sql.order_id_le _ order_id_le_trans order_id_le_total).
Qed.

(** X12. The listing of [get_tables_config]: when it returns it has changed
    nothing, and it holds every catalog row once, by increasing rank, rows
    of equal rank by increasing identifier. *)
Theorem get_tables_config_sorted :
  ∀ (s s' : storage) (tables : list table_setting),
    get_tables_config s = (inr tables, s') →
    file s' = file s
    ∧ ∃ rs, file s !! settings_name = Some (Catalog rs)
        ∧ tables ≡ₚ rs
        ∧ StronglySorted Sql.order_id_le tables.
Proof.
  intros s s' tables Hrun.
  destruct (get_tables_config_inr _ _ _ Hrun) as (rs & Hcat & Hfile & Hperm & Hsorted).
  split; [done|]. exists rs. by rewrite <- Hfile.
Qed.

Lemma get_tables_config_sorted_witness :
  ∃ tables, (get_tables_config (Storage Sample.fridge_db [])).1 = inr tables
            ∧ StronglySorted Sql.order_id_le tables.
Proof.
  destruct (get_tables_config (Storage Sample.fridge_db [])) as [[e|tables] s'] eqn:Hrun.
  - vm_compute in Hrun. discriminate.
  - exists tables. split; [done|].
    by destruct (get_tables_config_sorted _ _ _ Hrun) as (_ & rs & _ & _ & Hs).
Defined.

(** A catalog in which [pantry] has rank 0 and every other row a rank of at
    least 1 is listed with [pantry] first. *)
Lemma pantry_listed_first rs tables :
  "pantry" ∈ table_id <$> rs →
  (∀ r, r ∈ rs → if decide (table_id r = "pantry") then display_order r = 0
                  else 1 ≤ display_order r) →
  tables ≡ₚ rs →
  StronglySorted Sql.order_id_le tables →
  ∃ p rest, tables = p :: rest ∧ table_id p = "pantry".
Proof.
  intros Hin Hranks Hperm Hsorted.
  apply list_elem_of_fmap in Hin as (p & Hid & Hp).
  assert (Hp0 : display_order p = 0).
  { specialize (Hranks p Hp). by rewrite decide_True in Hranks. }
  rewrite <- Hperm in Hp.
  destruct tables as [|h rest]; [by apply elem_of_nil in Hp|].
  exists h, rest. split; [done|].
  destruct (decide (table_id h = "pantry")) as [|Hne]; [done|]. exfalso.
  assert (Hh : 1 ≤ display_order h).
  { assert (h ∈ rs) as Hh by (rewrite <- Hperm; apply list_elem_of_here).
    specialize (Hranks h Hh). by rewrite decide_False in Hranks. }
  apply elem_of_cons in Hp as [->|Hp]; [congruence|].
  apply StronglySorted_inv in Hsorted as [_ Hall].
  rewrite Forall_forall in Hall. specialize (Hall p Hp).
  unfold Sql.order_id_le in Hall. lia.
Qed.

(** X13. Whenever [ensure_pantry_first] has changed the file, the listing
    that follows starts with [pantry]. *)
Theorem ensure_pantry_first_then_listing :
  ∀ (s s2 : storage) (tables : list table_setting),
    file (ensure_pantry_first s).2 ≠ file s →
    get_tables_config (ensure_pantry_first s).2 = (inr tables, s2) →
    ∃ p rest, tables = p :: rest ∧ table_id p = "pantry".
Proof.
  intros s s2 tables Hchanged Hlist.
  destruct (ensure_pantry_first_cases s) as [_ [?|(rs & p & Hcat & Hsel & Hne & Hfile)]];
    [done|].
  destruct (get_tables_config_inr _ _ _ Hlist) as (rs' & Hcat' & Hf2 & Hperm & Hsorted).
  rewrite Hf2, Hfile in Hcat'. unfold Sql.put_settings in Hcat'.
  rewrite lookup_insert_eq in Hcat'. injection Hcat' as <-.
  eapply pantry_listed_first; [| |done|done].
  - rewrite reordered_ids.
    unfold Sql.select_display_order, Sql.settings_of in Hsel. rewrite Hcat in Hsel.
    destruct (Sql.find_setting "pantry" rs) as [r|] eqn:Hfind; [|done].
    apply find_setting_Some in Hfind as [Hr Hid]. rewrite <- Hid.
    by apply list_elem_of_fmap_2.
  - intros r'. apply pantry_renumbering_ranks.
Qed.

Lemma ensure_pantry_first_then_listing_witness :
  let s := (update_table_order [("pantry", 2); ("fridge", 0)]
              (Storage Sample.fridge_db [])).2 in
  ∃ p rest, (get_tables_config (ensure_pantry_first s).2).1 = inr (p :: rest)
            ∧ table_id p = "pantry".
Proof.
  intros s.
  destruct (get_tables_config (ensure_pantry_first s).2) as [[e|tables] s2] eqn:Hlist.
  - vm_compute in Hlist. discriminate.
  - destruct (ensure_pantry_first_then_listing s s2 tables) as (p & rest & -> & Hp).
    + intros Heq. apply (f_equal (Sql.select_display_order "pantry")) in Heq.
      vm_compute in Heq. discriminate.
    + exact Hlist.
    + exists p, rest. split; [reflexivity|exact Hp].
Defined.

(** ** Startup *)

(** A connection with no transaction open that sees what is on disk. *)
Lemma query_idle {A} (q : database → result A) db0 c r c' :
  disk c = db0 → view c = db0 → in_transaction c = false →
  query q c = (r, c') →
  disk c' = db0 ∧ view c' = db0 ∧ in_transaction c' = false
  ∧ ∀ a, r = inr a → q db0 = inr a.
Proof.
  intros Hd Hv Ht. unfold query. destruct (next_failure_spec c) as (b & s & ->).
  destruct b; cbn [view].
  - intros Heq. simplify_eq/=. by repeat split.
  - destruct (q (view c)) as [e|a] eqn:Hq; intros Heq; simplify_eq/=.
    + by repeat split.
    + repeat split; try done. intros ? [= <-]. congruence.
Qed.

Lemma execute_idle stmt db0 c r c' :
  disk c = db0 → view c = db0 → in_transaction c = false →
  execute false stmt c = (r, c') →
  (∃ e, r = inl e ∧ disk c' = db0 ∧ view c' = db0 ∧ in_transaction c' = false)
  ∨ (∃ db1, r = inr () ∧ stmt db0 = inr db1
       ∧ disk c' = db1 ∧ view c' = db1 ∧ in_transaction c' = false).
Proof.
  intros Hd Hv Ht. unfold execute. destruct (next_failure_spec c) as (b & s & ->).
  destruct b; cbn [view].
  - intros Heq. simplify_eq/=. left. eexists. repeat split; congruence.
  - destruct (stmt (view c)) as [e|db1] eqn:Hs; intros Heq; simplify_eq/=.
    + left. eexists. repeat split; congruence.
    + right. exists db1. rewrite Ht. repeat split; congruence.
Qed.

Lemma commit_idle db0 c r c' :
  disk c = db0 → view c = db0 →
  commit c = (r, c') → disk c' = db0.
Proof.
  intros Hd Hv. unfold commit. destruct (next_failure_spec c) as (b & s & ->).
  destruct b; intros Heq; by simplify_eq/=.
Qed.

(** The first connection of [init_database] on a file whose catalog has
    rows: nothing is written. *)
Lemma init_database_scan db fl rs r s1 :
  db !! settings_name = Some (Catalog rs) → rs ≠ [] →
  with_connection (
      execute false Sql.create_settings_if_not_exists;;
      query Sql.select_display_order_limit;;
      count ← query Sql.select_count;
      (if bool_decide (count = 0%nat) then
         for_each default_tables (λ d,
           execute true (Sql.insert_setting d);;
           execute false (Sql.create_table true (table_id d) (columns d)))
       else mret ());;
      commit) (Storage db fl) = (r, s1) →
  file s1 = db.
Proof.
  intros Hcat Hne. unfold with_connection. cbn [file failures].
  match goal with
  | |- (let '(_, _) := ?m ?c0 in _) = _ → _ => destruct (m c0) as [r' c'] eqn:Hrun
  end.
  intros [= <- <-].
  cbn [file]. unfold mbind, M_bind in Hrun.
  destruct (execute false _ _) as [r1 c1] eqn:H1.
  apply (execute_idle _ db) in H1 as [(e & -> & Hd & _)|(db1 & -> & Hstmt & Hd1 & Hv1 & Ht1)];
    try done; [by injection Hrun as <- <-|].
  unfold Sql.create_settings_if_not_exists in Hstmt. rewrite Hcat in Hstmt.
  injection Hstmt as <-.
  destruct (query Sql.select_display_order_limit c1) as [r2 c2] eqn:H2.
  apply (query_idle _ db) in H2 as (Hd2 & Hv2 & Ht2 & _); try done.
  destruct r2 as [e|?]; [by injection Hrun as <- <-|].
  destruct (query Sql.select_count c2) as [r3 c3] eqn:H3.
  apply (query_idle _ db) in H3 as (Hd3 & Hv3 & Ht3 & Hcount); try done.
  destruct r3 as [e|count]; [by injection Hrun as <- <-|].
  specialize (Hcount count eq_refl).
  unfold Sql.select_count, Sql.settings_of in Hcount. rewrite Hcat in Hcount.
  injection Hcount as <-.
  rewrite bool_decide_eq_false_2 in Hrun by (by destruct rs).
  cbn in Hrun. destruct (commit c3) as [r4 c4] eqn:H4.
  apply (commit_idle db) in H4; try done.
  destruct r4; by injection Hrun as <- <-.
Qed.

(** The statement of [ensure_pantry_first_effect], for the proofs below. *)
Lemma ensure_pantry_first_frame s :
  (∀ n, n ≠ settings_name → file (ensure_pantry_first s).2 !! n = file s !! n)
  ∧ (∀ rs, file s !! settings_name = Some (Catalog rs) →
       ∃ rs', file (ensure_pantry_first s).2 !! settings_name = Some (Catalog rs')
         ∧ Forall2 same_but_rank rs rs')
  ∧ ((∀ p, Sql.select_display_order "pantry" (file s) = inr (Some p) → p = 0) →
     file (ensure_pantry_first s).2 = file s).
Proof.
  destruct (ensure_pantry_first_cases s) as [_ Hcases]. split; [|split].
  - intros n Hn. destruct Hcases as [->|(rs & p & _ & _ & _ & ->)]; [done|].
    unfold Sql.put_settings. by rewrite lookup_insert_ne.
  - intros rs Hcat. destruct Hcases as [->|(rs0 & p & Hcat0 & _ & _ & ->)].
    + exists rs. split; [done|apply same_but_rank_refl].
    + rewrite Hcat in Hcat0. injection Hcat0 as <-.
      eexists. split; [apply lookup_insert_eq|apply reordered_same_but_rank].
  - intros Hzero. destruct Hcases as [->|(rs & p & _ & Hp & Hne & _)]; [done|].
    by destruct (Hne (Hzero p Hp)).
Qed.

(** X14. A later startup is harmless: on a file whose catalog has rows,
    [init_database] seeds nothing and touches no data table, whatever the
    engine does; the catalog rows keep their place, identifier, name,
    columns and labels, and when there is no [pantry] row or it has rank 0
    the file is left exactly as it was. *)
Theorem init_database_restart :
  ∀ (s : storage) (rs : list table_setting),
    file s !! settings_name = Some (Catalog rs) →
    rs ≠ [] →
    (∀ n, n ≠ settings_name → file (init_database s).2 !! n = file s !! n)
    ∧ (∃ rs', file (init_database s).2 !! settings_name = Some (Catalog rs')
         ∧ Forall2 same_but_rank rs rs')
    ∧ ((∀ p, Sql.select_display_order "pantry" (file s) = inr (Some p) → p = 0) →
       file (init_database s).2 = file s).
Proof.
  intros [db fl] rs Hcat Hne. cbn [file] in *. unfold init_database.
  destruct (with_connection _ (Storage db fl)) as [r s1] eqn:Hscan.
  pose proof (init_database_scan _ _ _ _ _ Hcat Hne Hscan) as Hs1.
  destruct r as [e|[]]; cbn [snd].
  - rewrite Hs1. split; [done|]. split; [|done].
    exists rs. split; [done|apply same_but_rank_refl].
  - destruct (ensure_pantry_first_frame s1) as (Hframe & Hrows & Hsame).
    rewrite Hs1 in *. split; [done|]. split; [by apply Hrows|done].
Qed.

Lemma init_database_restart_witness :
  file (init_database (Storage Sample.fridge_db [])).2 = Sample.fridge_db.
Proof.
  destruct (init_database_restart (Storage Sample.fridge_db [])
              [ TableSetting "pantry" "Pantry" ["item"; "dateofpurchase"; "amount"]
                  ["Item"; "Date of Purchase"; "Amount"] 0;
                TableSetting "fridge" "Fridge" ["item"; "amount"] ["Item"; "Amount"] 1 ])
    as (_ & _ & Hsame).
  - by vm_compute.
  - done.
  - apply Hsame. intros p Hp. vm_compute in Hp. by injection Hp as <-.
Defined.






(** ** The routes *)

Lemma query_disk {A} (q : database → result A) c r c' :
  query q c = (r, c') → disk c' = disk c.
Proof.
  unfold query. destruct (next_failure_spec c) as (b & s & ->).
  destruct b; cbn [view]; [|destruct (q (view c))]; intros Heq; by simplify_eq/=.
Qed.

Lemma get_tables_config_file s : file (get_tables_config s).2 = file s.
Proof.
  unfold get_tables_config, with_connection. cbn.
  destruct (query _ _) as [r c] eqn:Hq. cbn [snd file].
  by apply query_disk in Hq.
Qed.

Lemma find_setting_reverse_None tid tables :
  tid ∉ table_id <$> tables → lookup_table tid tables = None.
Proof.
  intros Hnot. unfold lookup_table. apply find_setting_None.
  by rewrite fmap_reverse, elem_of_reverse.
Qed.

(** X16. The delete route drops nothing it does not know: for an
    identifier without catalog row, and so for the name of the catalog
    itself, it leaves the file as it was, whatever the engine does, and
    flashes that the table was not found unless the listing failed. *)
Theorem delete_table_route_unknown :
  ∀ (tid : string) (s : storage) (rs : list table_setting),
    file s !! settings_name = Some (Catalog rs) →
    tid ∉ table_id <$> rs →
    file (delete_table_route tid s).2 = file s
    ∧ ((delete_table_route tid s).1 = TableNotFound
       ∨ ∃ e, (delete_table_route tid s).1 = ErrorDeleting e).
Proof.
  intros tid s rs Hcat Hnot. unfold delete_table_route.
  pose proof (get_tables_config_file s) as Hfile.
  destruct (get_tables_config s) as [[e|tables] s1] eqn:Hlist; cbn [snd] in Hfile.
  - split; [done|]. right. by exists e.
  - destruct (get_tables_config_inr _ _ _ Hlist) as (rs' & Hcat' & _ & Hperm & _).
    rewrite Hfile, Hcat in Hcat'. injection Hcat' as <-.
    rewrite find_setting_reverse_None; [by split; [|left]|].
    by rewrite Hperm.
Qed.

Lemma delete_table_route_unknown_witness :
  delete_table_route "table_settings" (Storage Sample.fridge_db [])
  = (TableNotFound, Storage Sample.fridge_db []).
Proof.
  destruct (delete_table_route_unknown "table_settings" (Storage Sample.fridge_db [])
              [ TableSetting "pantry" "Pantry" ["item"; "dateofpurchase"; "amount"]
                  ["Item"; "Date of Purchase"; "Amount"] 0;
                TableSetting "fridge" "Fridge" ["item"; "amount"] ["Item"; "Amount"] 1 ])
    as [Hfile _].
  - by vm_compute.
  - by_compute.
  - by vm_compute.
Defined.

(** X17. What the add route stores when it reports success, for a form
    in ASCII whose table identifier is a bare name: the catalog row has the
    identifier and the name of the form with the white space around them
    stripped, the labels between the commas of the form, each stripped, and
    the identifiers derived from these labels, one per label; the new data
    table has these identifiers as fields and no rows. *)
Theorem add_table_stores_derived :
  ∀ (form_id form_name display_columns_str : string) (s s' : storage) (name : string),
    ascii_text form_id = true →
    ascii_text form_name = true →
    ascii_text display_columns_str = true →
    bare_name (Py.strip form_id) = true →
    add_table form_id form_name display_columns_str s = (TableCreated name, s') →
    let labels := parse_display_columns display_columns_str in
    name = Py.strip form_name
    ∧ (∃ rs rank,
         file s !! settings_name = Some (Catalog rs)
         ∧ file s' !! settings_name
           = Some (Catalog (rs ++ [TableSetting (Py.strip form_id) (Py.strip form_name)
                                     (derive_column <$> labels) labels rank])))
    ∧ file s' !! Py.strip form_id = Some (Data (DataTable (derive_column <$> labels) []))
    ∧ length (derive_column <$> labels) = length labels.
Proof.
  intros fid fname str s s' name _ _ _ _. unfold add_table.
  case_bool_decide; [done|]. case_bool_decide; [done|].
  destruct (create_table _ _ _ _ s) as [[e|b] s1] eqn:Hrun; [done|].
  intros [= <- <-]. cbv zeta. split; [done|].
  pose proof (create_table_inr_free _ _ _ _ _ _ _ Hrun) as (rs & Hcat & _ & Hfree & _).
  apply create_table_appends in Hrun as (rs' & Hcat' & ->).
  rewrite Hcat in Hcat'. injection Hcat' as <-.
  assert (Hne : Py.strip fid ≠ settings_name) by (intros Heq; rewrite Heq in *; congruence).
  unfold Sql.put_settings. split; [|split].
  - exists rs. eexists. split; [done|].
    rewrite lookup_insert_ne, lookup_insert_eq by done. reflexivity.
  - by rewrite lookup_insert_eq.
  - apply length_fmap.
Qed.

(** Scenario: the labels "Item,Date of Purchase,Amount" for a table
    [cellar]. *)
Lemma add_table_stores_derived_witness :
  let call := add_table " cellar " "Cellar" "Item, Date of Purchase ,Amount"
                (Storage Sample.fridge_db []) in
  file call.2 !! "cellar"
  = Some (Data (DataTable ["item"; "date_of_purchase"; "amount"] [])).
Proof.
  intros call.
  destruct (add_table_stores_derived " cellar " "Cellar" "Item, Date of Purchase ,Amount"
              (Storage Sample.fridge_db []) call.2 "Cellar" eq_refl eq_refl eq_refl eq_refl)
    as (_ & _ & Htab & _).
  - by vm_compute.
  - assert (Py.strip " cellar " = "cellar") as Hid by (vm_compute; reflexivity).
    rewrite Hid in Htab. rewrite Htab. vm_compute. reflexivity.
Defined.

(** ** The derived identifiers *)

Section Identifiers.

Import Py OnePass.

Lemma kept_chars_class s :
  Forall (λ c, identifier_char c = true)
    (keep_identifier_chars (separators_to_underscore (lower s))).
Proof.
  unfold keep_identifier_chars, separators_to_underscore, lower.
  induction s as [|c s IH]; [constructor|].
  destruct c as [[] [] [] [] [] [] [] []]; cbn;
    first [exact IH | constructor; [reflexivity | exact IH]].
Qed.

Lemma collapse_class (P : ascii → Prop) s :
  Forall P s → Forall P (collapse_underscores s).
Proof.
  induction s as [|c s IH]; [done|]. intros [Hc Hs]%Forall_cons.
  rewrite collapse_cons. destruct (_ && _); [by apply IH|].
  constructor; [done|by apply IH].
Qed.

Lemma lstrip_us_class (P : ascii → Prop) s :
  Forall P s → Forall P (lstrip_us s).
Proof.
  induction s as [|c s IH]; [done|]. intros Hall. simpl.
  destruct (is_us c); [|done]. apply IH. by apply Forall_cons in Hall as [_ ?].
Qed.

Lemma trim_class (P : ascii → Prop) s :
  Forall P s → Forall P (trim_underscores s).
Proof.
  intros Hall. unfold trim_underscores.
  apply List.Forall_rev, lstrip_us_class, List.Forall_rev, lstrip_us_class, Hall.
Qed.

Lemma has_dunder_cons c s :
  has_dunder (c :: s) = (is_us c && starts_us s) || has_dunder s.
Proof. destruct s; simpl; [by rewrite andb_false_r|done]. Qed.

Lemma ends_us_cons c s :
  ends_us (c :: s) = match s with [] => is_us c | _ => ends_us s end.
Proof.
  unfold ends_us. simpl. destruct s as [|c' s]; [done|].
  simpl. destruct (rev s ++ [c'])%list as [|x l] eqn:E; [|done].
  by destruct (rev s).
Qed.

Lemma has_dunder_snoc (s : chars) c :
  has_dunder (s ++ [c])%list = has_dunder s || (ends_us s && is_us c).
Proof.
  induction s as [|a s IH]; [done|].
  rewrite <- app_comm_cons, !has_dunder_cons, IH, ends_us_cons.
  destruct s as [|b s]; simpl.
  - by rewrite !orb_false_r, andb_false_r.
  - destruct (is_us a && is_us b), (has_dunder (b :: s)), (ends_us (b :: s) && is_us c); done.
Qed.

Lemma has_dunder_rev s : has_dunder (rev s) = has_dunder s.
Proof.
  induction s as [|a s IH]; [done|]. simpl rev.
  rewrite has_dunder_snoc, has_dunder_cons, IH. unfold ends_us. rewrite rev_involutive.
  destruct (has_dunder s), (starts_us s), (is_us a); done.
Qed.

Lemma has_dunder_lstrip s : has_dunder s = false → has_dunder (lstrip_us s) = false.
Proof.
  induction s as [|c s IH]; [done|]. intros H. simpl lstrip_us.
  destruct (is_us c); [|done]. apply IH.
  rewrite has_dunder_cons in H. by apply orb_false_elim in H as [_ ?].
Qed.

Lemma collapse_has_no_dunder s : has_dunder (collapse_underscores s) = false.
Proof.
  rewrite <- (collapse_loop_collapse (length s) s) by done.
  by apply collapse_loop_done.
Qed.

Lemma lstrip_us_starts s : starts_us (lstrip_us s) = false.
Proof.
  induction s as [|c s IH]; [done|]. simpl. destruct (is_us c) eqn:E; [done|]. by simpl.
Qed.

Lemma lstrip_us_ends s : ends_us s = false → ends_us (lstrip_us s) = false.
Proof.
  induction s as [|c s IH]; [done|]. simpl lstrip_us. intros H.
  destruct (is_us c); [|done]. apply IH. rewrite ends_us_cons in H.
  by destruct s.
Qed.

Lemma trim_ends s :
  starts_us (trim_underscores s) = false ∧ ends_us (trim_underscores s) = false.
Proof.
  unfold trim_underscores. split.
  - change (ends_us (lstrip_us (rev (lstrip_us s))) = false).
    apply lstrip_us_ends. unfold ends_us. rewrite rev_involutive. apply lstrip_us_starts.
  - unfold ends_us. rewrite rev_involutive. apply lstrip_us_starts.
Qed.

(** The derived characters form a clean identifier. *)
Lemma derive_chars_clean s :
  Forall (λ c, identifier_char c = true) (derive_chars s)
  ∧ has_dunder (derive_chars s) = false
  ∧ starts_us (derive_chars s) = false
  ∧ ends_us (derive_chars s) = false.
Proof.
  rewrite derive_chars_normalize. split; [|split].
  - apply trim_class, collapse_class, kept_chars_class.
  - unfold trim_underscores. rewrite has_dunder_rev.
    apply has_dunder_lstrip. rewrite has_dunder_rev.
    apply has_dunder_lstrip, collapse_has_no_dunder.
  - apply trim_ends.
Qed.

Lemma identifier_char_fixed c :
  identifier_char c = true →
  lower_char c = c
  ∧ (if is_separator c then underscore else c) = c
  ∧ isalnum c || is_us c = true.
Proof.
  destruct c as [[] [] [] [] [] [] [] []]; intros H; vm_compute in H;
    try discriminate H; vm_compute; repeat split.
Qed.

Lemma lstrip_us_id s : starts_us s = false → lstrip_us s = s.
Proof. destruct s as [|c s]; [done|]. simpl. by intros ->. Qed.

Lemma kept_chars_fixed s :
  Forall (λ c, identifier_char c = true) s →
  keep_identifier_chars (separators_to_underscore (lower s)) = s.
Proof.
  unfold keep_identifier_chars, separators_to_underscore, lower.
  induction 1 as [|c s Hc Hall IH]; [done|].
  destruct (identifier_char_fixed c Hc) as (Hl & Hsep & Hk).
  cbn [map List.filter]. rewrite Hl, Hsep, Hk. by rewrite IH.
Qed.

(** On a clean identifier the derivation changes nothing. *)
Lemma derive_chars_fixed s :
  Forall (λ c, identifier_char c = true) s →
  has_dunder s = false → starts_us s = false → ends_us s = false →
  derive_chars s = s.
Proof.
  intros Hall Hdd Hs He. rewrite derive_chars_normalize.
  rewrite kept_chars_fixed, collapse_no_dunder by done.
  unfold trim_underscores. rewrite (lstrip_us_id s) by done.
  rewrite lstrip_us_id by done. apply rev_involutive.
Qed.

End Identifiers.

(** X18. The shape of a derived identifier, for a label in ASCII: it
    consists of lower-case letters, digits and underscores only, has no two
    underscores in a row, and neither begins nor ends with an underscore
    (it may be empty). *)
Theorem derive_column_clean :
  ∀ label : string,
    ascii_text label = true →
    let id := list_ascii_of_string (derive_column label) in
    Forall (λ c, identifier_char c = true) id
    ∧ Py.has_dunder id = false
    ∧ Py.starts_us id = false
    ∧ ends_us id = false.
Proof.
  intros label _. cbv zeta. unfold derive_column.
  rewrite list_ascii_of_string_of_list_ascii. apply derive_chars_clean.
Qed.

Lemma derive_column_clean_witness :
  derive_column "Best-By (Date)" = "best_by_date"
  ∧ Forall (λ c, identifier_char c = true) (list_ascii_of_string "best_by_date").
Proof.
  split; [reflexivity|].
  change "best_by_date" with (derive_column "Best-By (Date)").
  apply (derive_column_clean "Best-By (Date)"). reflexivity.
Defined.

(** X19. Deriving is idempotent: an identifier the routes derived from a
    label in ASCII, given back as a label, derives itself. *)
Theorem derive_column_idempotent :
  ∀ label : string,
    ascii_text label = true →
    derive_column (derive_column label) = derive_column label.
Proof.
  intros label _. unfold derive_column at 1 3. f_equal.
  unfold derive_column. rewrite list_ascii_of_string_of_list_ascii.
  destruct (derive_chars_clean (list_ascii_of_string label)) as (H1 & H2 & H3 & H4).
  by apply derive_chars_fixed.
Qed.

Lemma derive_column_idempotent_witness :
  derive_column (derive_column "Date of Purchase") = "date_of_purchase".
Proof.
  rewrite (derive_column_idempotent "Date of Purchase"); reflexivity.
Defined.

Lemma split_go_length sep cur s :
  length (Py.split_go sep cur s) = S (length (filter (λ c, c = sep) s)).
Proof.
  revert cur. induction s as [|c s IH]; intros cur; [done|].
  cbn [Py.split_go]. destruct (Ascii.eqb_spec c sep) as [->|Hne].
  - rewrite (filter_cons_True (λ c, c = sep)) by done. cbn [length]. by rewrite IH.
  - rewrite (filter_cons_False (λ c, c = sep)) by done. apply IH.
Qed.

(** X20. The routes read one label more than the form field has commas, so
    at least one, and derive exactly one identifier per label: the column
    list handed to [create_table] or [update_table] is never empty and the
    count check of the routes never fires. *)
Theorem parse_display_columns_count :
  ∀ display_columns_str : string,
    length (parse_display_columns display_columns_str) = S (commas display_columns_str)
    ∧ length (derive_columns (parse_display_columns display_columns_str))
      = S (commas display_columns_str)
    ∧ derive_columns (parse_display_columns display_columns_str) ≠ [].
Proof.
  intros str. unfold parse_display_columns, derive_columns, Py.split, commas.
  rewrite !length_map, split_go_length. split; [done|]. split; [done|].
  intros Hnil. apply (f_equal length) in Hnil.
  rewrite !length_map, split_go_length in Hnil. done.
Qed.

(** ** Catalog and data tables agree *)

Lemma consistent_row_not_settings db rs r :
  consistent db → db !! settings_name = Some (Catalog rs) → r ∈ rs →
  table_id r ≠ settings_name.
Proof.
  intros Hcons Hcat Hr Heq. destruct (Hcons rs r Hcat Hr) as (t & Ht & _).
  rewrite Heq in Ht. congruence.
Qed.

Lemma updated_settings_elem tid name cols dcols rs r' :
  r' ∈ updated_settings tid name cols dcols rs →
  ∃ r, r ∈ rs
    ∧ ((table_id r = tid ∧ r' = TableSetting tid name cols dcols (display_order r))
       ∨ (table_id r ≠ tid ∧ r' = r)).
Proof.
  unfold updated_settings. intros Hin. apply list_elem_of_In, in_map_iff in Hin
    as (r & <- & Hr). exists r. split; [by apply list_elem_of_In|].
  destruct (String.eqb_spec (table_id r) tid) as [<-|Hne]; [by left|by right].
Qed.

Lemma create_table_keeps_consistency tid name cols dcols s :
  consistent (file s) → consistent (file (create_table tid name cols dcols s).2).
Proof.
  intros Hcons.
  destruct (create_table tid name cols dcols s) as [[e|b] s'] eqn:Hrun; cbn [snd].
  { by rewrite (create_table_rollback _ _ _ _ _ _ _ Hrun). }
  pose proof (create_table_inr_free _ _ _ _ _ _ _ Hrun) as (rs & Hcat & Hfind & Hfree & _).
  apply create_table_appends in Hrun as (rs' & Hcat' & ->).
  rewrite Hcat in Hcat'. injection Hcat' as <-.
  assert (Hne : tid ≠ settings_name) by (intros ->; congruence).
  intros rs' r. unfold Sql.put_settings.
  rewrite lookup_insert_ne, lookup_insert_eq by done. intros [= <-] Hr.
  apply elem_of_app in Hr as [Hr|Hr].
  - assert (table_id r ≠ tid).
    { intros Heq. apply find_setting_None in Hfind. apply Hfind. rewrite <- Heq.
      by apply list_elem_of_fmap_2. }
    pose proof (consistent_row_not_settings _ _ _ Hcons Hcat Hr).
    rewrite !lookup_insert_ne by done. by apply (Hcons rs).
  - apply list_elem_of_singleton in Hr as ->. cbn [table_id columns].
    rewrite lookup_insert_eq. by eexists.
Qed.

Lemma update_table_keeps_consistency tid name cols dcols s :
  consistent (file s) → consistent (file (update_table tid name cols dcols s).2).
Proof.
  intros Hcons.
  destruct (update_table tid name cols dcols s) as [[e|b] s'] eqn:Hrun; cbn [snd].
  { by rewrite (update_table_rollback _ _ _ _ _ _ _ Hrun). }
  pose proof (update_table_inr _ _ _ _ _ _ _ Hrun) as (old & _ & Hold & _).
  pose proof (select_columns_inr _ _ _ Hold) as (rs & r0 & Hcat & Hfind & Hcols).
  apply find_setting_Some in Hfind as [Hr0 Hid0].
  destruct (Hcons rs r0 Hcat Hr0) as (t & Ht & Hfields). rewrite Hid0 in Ht.
  rewrite Hcols in Hfields.
  assert (Hne : tid ≠ settings_name) by (intros ->; congruence).
  assert (Hrows : ∀ t', list_to_set (fields t') =@{gset string} list_to_set cols →
            consistent (<[tid := Data t']>
                          (Sql.put_settings (updated_settings tid name cols dcols rs) (file s)))).
  { intros t' Ht' rs' r'. unfold Sql.put_settings.
    rewrite lookup_insert_ne, lookup_insert_eq by done. intros [= <-] Hr'.
    apply updated_settings_elem in Hr' as (r & Hr & [[Hid ->]|[Hid ->]]).
    - cbn [table_id columns]. rewrite lookup_insert_eq. by eexists.
    - pose proof (consistent_row_not_settings _ _ _ Hcons Hcat Hr).
      rewrite !lookup_insert_ne by done. by apply (Hcons rs). }
  destruct (decide (list_to_set cols =@{gset string} list_to_set old)) as [Hset|Hset].
  - destruct (update_table_same_set _ _ _ _ _ _ _ _ Hrun Hold Hset) as (rs' & Hcat' & ->).
    rewrite Hcat in Hcat'. injection Hcat' as <-.
    assert (Hsame : Sql.put_settings (updated_settings tid name cols dcols rs) (file s)
                    = <[tid := Data t]>
                        (Sql.put_settings (updated_settings tid name cols dcols rs) (file s))).
    { symmetry. apply insert_id. unfold Sql.put_settings. by rewrite lookup_insert_ne. }
    rewrite Hsame. apply Hrows. by rewrite Hfields, Hset.
  - destruct (update_table_migrates _ _ _ _ _ _ _ _ _ Hrun Hold Ht Hset)
      as (rs' & Hcat' & _ & _ & _ & ->).
    rewrite Hcat in Hcat'. injection Hcat' as <-. by apply Hrows.
Qed.

Lemma delete_table_keeps_consistency tid s :
  consistent (file s) → consistent (file (delete_table tid s).2).
Proof.
  intros Hcons.
  destruct (delete_table tid s) as [[e|b] s'] eqn:Hrun; cbn [snd].
  { by rewrite (delete_table_rollback _ _ _ _ Hrun). }
  apply delete_table_inr in Hrun as (rs & Hcat & ->). intros rs' r.
  destruct (decide (tid = settings_name)) as [->|Hne].
  { by rewrite lookup_delete_eq. }
  unfold Sql.put_settings. rewrite lookup_delete_ne, lookup_insert_eq by done.
  intros [= <-]. rewrite filter_other_ids. intros [Hid Hr]%list_elem_of_filter.
  pose proof (consistent_row_not_settings _ _ _ Hcons Hcat Hr).
  rewrite lookup_delete_ne, lookup_insert_ne by done. by apply (Hcons rs).
Qed.

Lemma update_table_order_keeps_consistency orders s :
  consistent (file s) → consistent (file (update_table_order orders s).2).
Proof.
  intros Hcons.
  destruct (update_table_order orders s) as [[e|b] s'] eqn:Hrun; cbn [snd].
  { by rewrite (update_table_order_rollback _ _ _ _ Hrun). }
  destruct (file s !! settings_name) as [[rs|t]|] eqn:Hcat.
  - destruct (update_table_order_inr _ _ _ _ _ Hrun Hcat) as [-> _].
    intros rs' r'. unfold Sql.put_settings. rewrite lookup_insert_eq. intros [= <-].
    unfold reordered. intros Hr'. apply list_elem_of_In, in_map_iff in Hr' as (r & <- & Hr).
    apply list_elem_of_In in Hr. cbn [table_id columns].
    pose proof (consistent_row_not_settings _ _ _ Hcons Hcat Hr).
    rewrite lookup_insert_ne by done. by apply (Hcons rs).
  - rewrite (update_table_order_inr_no_catalog _ _ _ _ Hrun); [done|].
    intros rs. by rewrite Hcat.
  - rewrite (update_table_order_inr_no_catalog _ _ _ _ Hrun); [done|].
    intros rs. by rewrite Hcat.
Qed.

(** X21. Catalog and storage stay in step: when every catalog row has a
    data table with the same column set before [create_table],
    [update_table], [delete_table] or [update_table_order], so it is after
    the call, whether it returned or raised and whatever the engine did.
    The identifier given, and the name of the temporary table made of it,
    are bare names that no other relation of the file has in another letter
    case, and the columns given name themselves between brackets. *)
Theorem schema_mutations_keep_consistency :
  ∀ (tid name : string) (cols dcols : list string) (table_orders : list (string * Z))
    (s : storage),
    names_itself tid (file s) = true →
    names_itself (tid +:+ "_temp") (file s) = true →
    forallb plain_column cols = true →
    consistent (file s) →
    consistent (file (create_table tid name cols dcols s).2)
    ∧ consistent (file (update_table tid name cols dcols s).2)
    ∧ consistent (file (delete_table tid s).2)
    ∧ consistent (file (update_table_order table_orders s).2).
Proof.
  intros tid name cols dcols orders s _ _ _ Hcons. split; [|split; [|split]].
  - by apply create_table_keeps_consistency.
  - by apply update_table_keeps_consistency.
  - by apply delete_table_keeps_consistency.
  - by apply update_table_order_keeps_consistency.
Qed.

Lemma fresh_db_consistent : consistent Sample.fresh_db.
Proof.
  intros rs r Hrs. vm_compute in Hrs. injection Hrs as <-.
  intros Hr. apply list_elem_of_In in Hr. simpl in Hr.
  destruct Hr as [<-|[<-|[]]]; eexists; (split; [vm_compute; reflexivity|done]).
Qed.

Lemma fridge_db_consistent : consistent Sample.fridge_db.
Proof.
  intros rs r Hrs. vm_compute in Hrs. injection Hrs as <-.
  intros Hr. apply list_elem_of_In in Hr. simpl in Hr.
  destruct Hr as [<-|[<-|[]]]; eexists; (split; [vm_compute; reflexivity|done]).
Qed.

Lemma schema_mutations_keep_consistency_witness :
  consistent (file (update_table "pantry" "Pantry" ["item"; "note"] ["Item"; "Note"]
                      (Storage Sample.fresh_db [])).2).
Proof.
  apply (schema_mutations_keep_consistency "pantry" "Pantry" ["item"; "note"]
           ["Item"; "Note"] [] (Storage Sample.fresh_db [])).
  - vm_compute. reflexivity.
  - vm_compute. reflexivity.
  - reflexivity.
  - apply fresh_db_consistent.
Defined.

(** ** Items *)

(** A single statement followed by [commit], on a fresh connection. *)
Lemma single_statement_inr stmt s u s' :
  with_connection (execute true stmt;; commit) s = (inr u, s') →
  stmt (file s) = inr (file s').
Proof.
  unfold with_connection.
  destruct ((execute true stmt;; commit) _) as [r c'] eqn:Hrun. intros [= -> <-].
  apply bind_inr in Hrun as (? & c1 & Hex & Hcom).
  apply execute_inr in Hex. apply commit_inr in Hcom. cbn [view file] in *.
  by rewrite Hcom.
Qed.

Lemma single_statement_inl stmt s e s' :
  with_connection (execute true stmt;; commit) s = (inl e, s') →
  file s' = file s.
Proof.
  unfold with_connection.
  pose proof (triple_bind (unchanged (file s)) (execute true stmt) (λ _, in_txn (file s))
                (λ _, commit) (λ _ _, True) (on_disk (file s))
                (triple_dml _ _)) as Hkeep.
  specialize (Hkeep (λ _, triple_weaken _ _ _ _ _ (in_txn_unchanged _) (triple_commit _))).
  specialize (Hkeep (Connection (file s) (file s) false (failures s))).
  destruct ((execute true stmt;; commit) _) as [r c'] eqn:Hrun. intros [= -> <-].
  apply Hkeep. by split.
Qed.

Lemma resolve_tab_known tab tables :
  tab ∈ table_id <$> tables → resolve_tab tab tables = tab.
Proof. intros Hin. unfold resolve_tab. by rewrite bool_decide_eq_true_2. Qed.

Lemma next_rowid_fresh (rs : list (Z * gmap string string)) rid r :
  (rid, r) ∈ rs → rid < Sql.next_rowid rs.
Proof.
  unfold Sql.next_rowid. induction rs as [|[rid0 r0] rs IH]; intros Hin.
  - by apply elem_of_nil in Hin.
  - apply elem_of_cons in Hin as [[= -> ->]|Hin]; cbn [foldr fst]; [lia|].
    specialize (IH Hin). lia.
Qed.

Lemma new_row_lookup (f : string → string) cols c :
  Rows.new_row cols (f <$> cols) !! c = if decide (c ∈ cols) then Some (f c) else None.
Proof.
  unfold Rows.new_row. induction cols as [|a cols IH]; [done|].
  cbn [fmap list_fmap zip zip_with list_to_map foldr fst snd].
  destruct (decide (a = c)) as [->|Hne].
  - rewrite lookup_insert_eq. by rewrite decide_True by apply list_elem_of_here.
  - rewrite lookup_insert_ne, IH by done.
    destruct (decide (c ∈ cols)) as [Hin|Hnot].
    + by rewrite decide_True by (by apply list_elem_of_further).
    + rewrite decide_False; [done|]. rewrite elem_of_cons. intros [?|?]; congruence.
Qed.


Lemma consistent_lookup s tables tab config :
  consistent (file s) →
  (get_tables_config s).1 = inr tables →
  lookup_table tab tables = Some config →
  ∃ t, file s !! tab = Some (Data t) ∧ ∀ c, c ∈ fields t ↔ c ∈ columns config.
Proof.
  intros Hcons Hlist Hconfig.
  destruct (get_tables_config s) as [r s1] eqn:Hrun. cbn [fst] in Hlist. subst r.
  apply get_tables_config_inr in Hrun as (rs & Hcat & Hfile & Hperm & _).
  rewrite Hfile in Hcat.
  apply find_setting_Some in Hconfig as [Hin <-].
  rewrite elem_of_reverse, Hperm in Hin.
  destruct (Hcons rs config Hcat Hin) as (t & Ht & Heq). exists t. split; [done|].
  intros c. rewrite <- (elem_of_list_to_set (C := gset string) c (fields t)).
  rewrite <- (elem_of_list_to_set (C := gset string) c (columns config)). by rewrite Heq.
Qed.

Lemma bind_int_inr rowid stmt db db' :
  Rows.bind_int rowid stmt db = inr db' →
  stmt (Rows.int_key rowid) db = inr db' ∧ Sql.fits_integer rowid = true.
Proof.
  unfold Rows.bind_int. destruct (stmt _ db) as [|db1]; [done|].
  destruct (Sql.fits_integer rowid); [|done]. by intros [= ->].
Qed.

Lemma concerns_identifier flds rowid rid r :
  "rowid" ∉ flds →
  Rows.concerns flds (Rows.int_key rowid) (rid, r) = true ↔ rid = rowid.
Proof.
  intros Hnot. unfold Rows.concerns. rewrite bool_decide_eq_false_2 by done.
  rewrite bool_decide_eq_true. cbn. split; [by intros [= ->]|by intros ->].
Qed.

Lemma concerns_field flds rowid rid r :
  "rowid" ∈ flds →
  Rows.concerns flds (Rows.int_key rowid) (rid, r) = true ↔ r !! "rowid" = Some (pretty rowid).
Proof.
  intros Hin. unfold Rows.concerns. rewrite bool_decide_eq_true_2 by done.
  by rewrite bool_decide_eq_true.
Qed.

(** X22. In a file whose catalog and data tables agree, what a returning
    [add_item] leaves: the table of the tab, which is the tab of the
    request when the catalog knows it, has one row more, at the end, under
    a row identifier above all those of the table; the row holds, for each
    field of the table, the text of the form field of that name, or the
    empty text when the form has none; the rows that were there and all
    other relations are as before. *)
Theorem add_item_appends :
  ∀ (tab : string) (form : gmap string string) (s s' : storage),
    consistent (file s) →
    add_item tab form s = (inr (), s') →
    ∃ (tables : list table_setting) (t : data_table)
      (rid : Z) (row : gmap string string),
      let tab' := resolve_tab tab tables in
      (get_tables_config s).1 = inr tables
      ∧ (tab ∈ table_id <$> tables → tab' = tab)
      ∧ file s !! tab' = Some (Data t)
      ∧ file s' = <[tab' := Data (DataTable (fields t) (rows t ++ [(rid, row)]))]> (file s)
      ∧ (∀ rid0 r0, (rid0, r0) ∈ rows t → rid0 < rid)
      ∧ (∀ c, c ∈ fields t → row !! c = Some (default "" (form !! c)))
      ∧ (∀ c, c ∉ fields t → row !! c = None).
Proof.
  intros tab form s s' Hcons. unfold add_item.
  pose proof (get_tables_config_file s) as Hfile.
  pose proof (consistent_lookup s) as Hlook.
  destruct (get_tables_config s) as [[e|tables] s1] eqn:Hlist; [done|]. cbn [fst snd] in *.
  cbv zeta. destruct (lookup_table _ tables) as [config|] eqn:Hconfig; [|done].
  destruct (with_connection _ s1) as [[e|u] s2] eqn:Hrun; [done|]. intros [= <-].
  apply single_statement_inr in Hrun. rewrite Hfile in Hrun.
  destruct (Hlook tables _ config Hcons eq_refl Hconfig) as (t & Ht & Hcols).
  unfold Rows.insert_values in Hrun. case_bool_decide; [done|]. rewrite Ht in Hrun.
  case_bool_decide; [|done]. injection Hrun as <-.
  exists tables, t, (Sql.next_rowid (rows t)),
    (Rows.new_row (columns config) (form_get form <$> columns config)).
  cbv zeta. split; [done|]. split; [apply resolve_tab_known|]. split; [done|].
  split; [done|]. split; [apply next_rowid_fresh|].
  split; intros c Hc; rewrite new_row_lookup.
  - rewrite decide_True; [done|]. by apply Hcols.
  - rewrite decide_False; [done|]. by rewrite <- Hcols.
Qed.

Lemma add_item_appends_witness :
  let form : gmap string string := {[ "item" := "eggs"; "tab" := "fridge" ]} in
  let call := add_item "fridge" form (Storage Sample.fridge_db []) in
  file call.2 !! "fridge"
  = Some (Data (DataTable ["item"; "amount"]
                  [(1, Sample.milk); (2, {[ "item" := "eggs"; "amount" := "" ]})])).
Proof.
  intros form call.
  destruct (add_item_appends "fridge" form (Storage Sample.fridge_db []) call.2)
    as (tables & t & rid & row & _).
  - apply fridge_db_consistent.
  - by vm_compute.
  - vm_compute. reflexivity.
Defined.

Lemma filter_other_rowids (rowid : Z) (rs : list (Z * gmap string string)) :
  rowid ∉ rs.*1 → filter (λ p, p.1 ≠ rowid) rs = rs.
Proof.
  induction rs as [|[rid r] rs IH]; [done|].
  cbn [fmap list_fmap fst]. intros [Hne Hnot]%not_elem_of_cons.
  rewrite filter_cons_True by (cbn; congruence). f_equal. by apply IH.
Qed.

(** X23. In a file whose catalog and data tables agree, what a returning
    [delete_item] leaves: the row identifier fits an
    INTEGER, and the table of the tab has lost the rows the identifier
    selects, the other rows staying in their order and every other relation
    as it was.  In a table without a field called [rowid] that is the row
    of that identifier, and nothing changes when there is none; in a table
    with such a field it is every row whose field [rowid] holds the decimal
    text of the identifier.  The tab is the one of the request when the
    catalog knows it, and otherwise the first of the listing. *)
Theorem delete_item_removes :
  ∀ (rowid : Z) (tab : string) (s s' : storage),
    consistent (file s) →
    delete_item rowid tab s = (inr (), s') →
    ∃ (tables : list table_setting) (t t' : data_table),
      let tab' := resolve_tab tab tables in
      (get_tables_config s).1 = inr tables
      ∧ (tab ∈ table_id <$> tables → tab' = tab)
      ∧ Sql.fits_integer rowid = true
      ∧ file s !! tab' = Some (Data t)
      ∧ file s' = <[tab' := Data t']> (file s)
      ∧ fields t' = fields t
      ∧ ("rowid" ∉ fields t →
           rows t' = filter (λ p, p.1 ≠ rowid) (rows t)
           ∧ (rowid ∉ (rows t).*1 → file s' = file s))
      ∧ ("rowid" ∈ fields t →
           rows t' = filter (λ p, p.2 !! "rowid" ≠ Some (pretty rowid)) (rows t)).
Proof.
  intros rowid tab s s' _. unfold delete_item.
  pose proof (get_tables_config_file s) as Hfile.
  destruct (get_tables_config s) as [[e|tables] s1] eqn:Hlist; [done|]. cbn [snd] in Hfile.
  cbv zeta.
  destruct (with_connection _ s1) as [[e|u] s2] eqn:Hrun; [done|]. intros [= <-].
  apply single_statement_inr in Hrun. rewrite Hfile in Hrun.
  apply bind_int_inr in Hrun as [Hrun Hfits].
  unfold Rows.delete_row in Hrun.
  destruct (file s !! resolve_tab tab tables) as [[?|t]|] eqn:Ht; try done.
  injection Hrun as <-. exists tables, t. eexists. cbv zeta.
  split; [done|]. split; [apply resolve_tab_known|]. split; [done|]. split; [done|].
  split; [reflexivity|]. cbn [fields rows]. split; [done|]. split.
  - intros Hnot.
    assert (filter (λ p, Rows.concerns (fields t) (Rows.int_key rowid) p = false) (rows t)
            = filter (λ p, p.1 ≠ rowid) (rows t)) as ->.
    { apply list_filter_iff. intros [rid r]. cbn [fst].
      rewrite <- (concerns_identifier (fields t) rowid rid r Hnot).
      by rewrite not_true_iff_false. }
    split; [done|]. intros Hid. apply insert_id. rewrite Ht, filter_other_rowids by done.
    by destruct t.
  - intros Hin. apply list_filter_iff. intros [rid r]. cbn [snd].
    rewrite <- (concerns_field (fields t) rowid rid r Hin).
    by rewrite not_true_iff_false.
Qed.

Lemma delete_item_removes_witness :
  let call := delete_item 1 "fridge" (Storage Sample.fridge_db []) in
  file call.2 !! "fridge" = Some (Data (DataTable ["item"; "amount"] [])).
Proof.
  intros call.
  destruct (delete_item_removes 1 "fridge" (Storage Sample.fridge_db []) call.2)
    as (tables & t & t' & _).
  - apply fridge_db_consistent.
  - by vm_compute.
  - vm_compute. reflexivity.
Defined.

Lemma assign_lookup (f : string → string) cols (r : gmap string string) c :
  Rows.assign (zip cols (Some <$> (f <$> cols))) r !! c
  = if decide (c ∈ cols) then Some (f c) else r !! c.
Proof.
  unfold Rows.assign. revert r. induction cols as [|a cols IH]; intros r; [done|].
  cbn [fmap list_fmap zip zip_with foldl fst snd]. rewrite IH.
  destruct (decide (c ∈ cols)) as [Hin|Hnot].
  - by rewrite decide_True by (by apply list_elem_of_further).
  - destruct (decide (a = c)) as [->|Hne].
    + rewrite lookup_insert_eq. by rewrite decide_True by apply list_elem_of_here.
    + rewrite lookup_insert_ne by done. rewrite decide_False; [done|].
      rewrite elem_of_cons. intros [?|?]; congruence.
Qed.


(** X24. In a file whose catalog and data tables agree, what a returning
    [edit_item] leaves: the table of the tab has the same fields and the
    same rows in the same places under the same identifiers; a row the
    identifier selects holds, in each field of the table, the text of the
    form field of that name, or the empty text; the other rows and all
    other relations are as before.  In a table without a field called
    [rowid] the row selected is the one of that identifier. *)
Theorem edit_item_overwrites :
  ∀ (rowid : Z) (tab : string) (form : gmap string string) (s s' : storage),
    consistent (file s) →
    edit_item rowid tab form s = (inr (), s') →
    ∃ (tables : list table_setting) (t t' : data_table),
      let tab' := resolve_tab tab tables in
      let selected := Rows.concerns (fields t) (Rows.int_key rowid) in
      (get_tables_config s).1 = inr tables
      ∧ (tab ∈ table_id <$> tables → tab' = tab)
      ∧ Sql.fits_integer rowid = true
      ∧ file s !! tab' = Some (Data t)
      ∧ file s' = <[tab' := Data t']> (file s)
      ∧ fields t' = fields t
      ∧ length (rows t') = length (rows t)
      ∧ (∀ i rid r, rows t !! i = Some (rid, r) →
          ∃ r', rows t' !! i = Some (rid, r')
            ∧ (selected (rid, r) = false → r' = r)
            ∧ (selected (rid, r) = true →
                 (∀ c, c ∈ fields t → r' !! c = Some (default "" (form !! c)))
                 ∧ (∀ c, c ∉ fields t → r' !! c = r !! c)))
      ∧ ("rowid" ∉ fields t → ∀ rid r, selected (rid, r) = true ↔ rid = rowid).
Proof.
  intros rowid tab form s s' Hcons. unfold edit_item.
  pose proof (get_tables_config_file s) as Hfile.
  pose proof (consistent_lookup s) as Hlook.
  destruct (get_tables_config s) as [[e|tables] s1] eqn:Hlist; [done|]. cbn [fst snd] in *.
  cbv zeta. destruct (lookup_table _ tables) as [config|] eqn:Hconfig; [|done].
  destruct (with_connection _ s1) as [[e|u] s2] eqn:Hrun; [done|]. intros [= <-].
  apply single_statement_inr in Hrun. rewrite Hfile in Hrun.
  apply bind_int_inr in Hrun as [Hrun Hfits].
  destruct (Hlook tables _ config Hcons eq_refl Hconfig) as (t & Ht & Hcols).
  unfold Rows.update_row in Hrun. case_bool_decide; [done|]. rewrite Ht in Hrun.
  case_bool_decide; [|done]. injection Hrun as <-.
  exists tables, t. eexists.
  split; [done|]. split; [apply resolve_tab_known|]. split; [done|]. split; [done|].
  split; [reflexivity|]. cbn [fields rows]. split; [done|]. split; [apply length_fmap|].
  split; [|intros Hnot rid r; by apply concerns_identifier].
  intros i rid r Hi. rewrite list_lookup_fmap, Hi. cbn [fmap option_fmap option_map fst snd].
  destruct (Rows.concerns _ _ _).
  - eexists. split; [reflexivity|]. split; [done|]. intros _.
    split; intros c Hc; rewrite (assign_lookup (form_get form)).
    + rewrite decide_True; [done|]. by apply Hcols.
    + rewrite decide_False; [done|]. by rewrite <- Hcols.
  - exists r. by split.
Qed.

Lemma edit_item_overwrites_witness :
  let form : gmap string string := {[ "item" := "oat milk" ]} in
  let call := edit_item 1 "fridge" form (Storage Sample.fridge_db []) in
  file call.2 !! "fridge"
  = Some (Data (DataTable ["item"; "amount"]
                  [(1, {[ "item" := "oat milk"; "amount" := "" ]})])).
Proof.
  intros form call.
  destruct (edit_item_overwrites 1 "fridge" form (Storage Sample.fridge_db []) call.2)
    as (tables & t & t' & _).
  - apply fridge_db_consistent.
  - by vm_compute.
  - vm_compute. reflexivity.
Defined.

(** X25. [inline_edit] writes only where the catalog allows it.  Unless
    it answers success the file is as it was, whatever the engine did.
    When it answers success in a file whose catalog and data tables agree,
    the tab is an identifier of the catalog, the column is one of the
    columns of its catalog row and a field of its data table, and nothing
    changed but that field of the rows the identifier text selects, which
    holds the value given, or nothing when no value was given. *)
Theorem inline_edit_guarded :
  ∀ (numeric : string → option Z) (tab rowid column : string) (value : option string)
    (s : storage),
    let call := inline_edit numeric tab rowid column value s in
    (call.1 ≠ InlineSuccess → file call.2 = file s)
    ∧ (consistent (file s) → call.1 = InlineSuccess →
       ∃ (tables : list table_setting) (config : table_setting) (t : data_table),
         (get_tables_config s).1 = inr tables
         ∧ lookup_table tab tables = Some config
         ∧ column ∈ columns config
         ∧ file s !! tab = Some (Data t)
         ∧ column ∈ fields t
         ∧ file call.2 =
             <[tab := Data (DataTable (fields t)
                 ((λ p, if Rows.concerns (fields t) (Rows.text_key numeric rowid) p
                        then (p.1, match value with
                                   | Some v => <[column := v]> p.2
                                   | None => delete column p.2
                                   end)
                        else p) <$> rows t))]> (file s)).
Proof.
  intros numeric tab rowid column value s. cbv zeta. unfold inline_edit.
  case_bool_decide; [by split|].
  pose proof (get_tables_config_file s) as Hfile.
  pose proof (consistent_lookup s) as Hlook.
  destruct (get_tables_config s) as [[e|tables] s1] eqn:Hlist; cbn [fst snd] in *;
    [by split|].
  destruct (lookup_table tab tables) as [config|] eqn:Hconfig; [|by split].
  case_bool_decide as Hcol; [by split|].
  destruct (with_connection _ s1) as [[e|u] s2] eqn:Hrun; cbn [fst snd].
  - split; [|done]. intros _. apply single_statement_inl in Hrun. by rewrite Hrun.
  - split; [done|]. intros Hcons _. apply single_statement_inr in Hrun. rewrite Hfile in Hrun.
    destruct (Hlook tables _ config Hcons eq_refl Hconfig) as (t & Ht & Hcols).
    unfold Rows.update_row in Hrun. case_bool_decide; [done|]. rewrite Ht in Hrun.
    case_bool_decide as Hsub; [|done]. injection Hrun as <-.
    exists tables, config, t. split; [done|]. split; [done|]. split; [done|].
    split; [done|]. split; [by apply Hcols|].
    by do 3 f_equal.
Qed.

Lemma inline_edit_guarded_witness :
  let numeric := λ text : string, if bool_decide (text = "1") then Some 1 else None in
  (inline_edit numeric "fridge" "1" "expiration_date" (Some "x") (Storage Sample.fridge_db []))
  = (InvalidColumn, Storage Sample.fridge_db [])
  ∧ file (inline_edit numeric "fridge" "1" "amount" (Some "2") (Storage Sample.fridge_db [])).2
      !! "fridge"
    = Some (Data (DataTable ["item"; "amount"] [(1, {[ "item" := "milk"; "amount" := "2" ]})])).
Proof.
  intros numeric. split; [by vm_compute|].
  destruct (inline_edit_guarded numeric "fridge" "1" "amount" (Some "2")
              (Storage Sample.fridge_db [])) as [_ Hok].
  destruct Hok as (tables & config & t & _ & _ & _ & Ht & _ & ->);
    [apply fridge_db_consistent|by vm_compute|].
  vm_compute in Ht. injection Ht as <-. rewrite lookup_insert_eq. vm_compute. reflexivity.
Defined.
